(** * CI-V protocol engine of iu2frl_civ: a shallow embedding

    The Python class [Device] of [src/iu2frl_civ/iu2frl_civ.py] is embedded
    method by method.  Python [bytes] are lists of integers, Python [str]
    values are lists of characters, exceptions are an error type and the
    serial port is an explicit state threaded through the calls. *)

From Stdlib Require Import String Ascii Bool ZArith QArith Qround Lia Lqa List Sorted.
Import ListNotations.
Open Scope Z_scope.

(** ** Python values, exceptions and results *)

(** A [bytes] object: a sequence of integers, each in [range(256)]. *)
Definition bytes := list Z.

(** A [str] object. *)
Definition pystr := list ascii.

Definition lit (s : string) : pystr := list_ascii_of_string s.

(** The exceptions the embedded methods can raise.  [CivCommandException]
    carries its [error_code]; [CivTimeoutException] carries the number that
    its message reports ("... occurred after {i+1} attempts"). *)
Inductive exn : Type :=
| ValueError
| IndexError
| UnboundLocalError
| CivCommandException (error_code : bytes)
| CivTimeoutException (reported_attempts : Z).

Inductive result (A : Type) : Type :=
| Ret (a : A)
| Raise (e : exn).
Arguments Ret {A} a.
Arguments Raise {A} e.

Definition bind {A B} (m : result A) (k : A -> result B) : result B :=
  match m with
  | Ret a => k a
  | Raise e => Raise e
  end.

Notation "x <- m ;; k" := (bind m (fun x => k))
  (at level 61, m at next level, right associativity).

(** A list comprehension whose element expression can raise: the elements are
    evaluated left to right and the first exception aborts. *)
Fixpoint comprehension {A B} (f : A -> result B) (l : list A) : result (list B) :=
  match l with
  | [] => Ret []
  | x :: t => y <- f x ;; ys <- comprehension f t ;; Ret (y :: ys)
  end.

(** ** Python builtins *)

Module Py.

(** [s[k]] on a sequence. *)
Definition getitem {A} (s : list A) (k : nat) : result A :=
  match nth_error s k with
  | Some x => Ret x
  | None => Raise IndexError
  end.

(** The digit character of a digit value: 0-9, then A-Z (upper case). *)
Definition digit_char (d : Z) : ascii :=
  if d <? 10 then ascii_of_N (Z.to_N (48 + d)) else ascii_of_N (Z.to_N (55 + d)).

(** Value of a character as a digit, [None] when it is none: 0-9, a-z, A-Z
    (CPython's digit table). *)
Definition digit_value (c : ascii) : option Z :=
  let n := Z.of_N (N_of_ascii c) in
  if (48 <=? n) && (n <=? 57) then Some (n - 48)
  else if (65 <=? n) && (n <=? 90) then Some (n - 55)
  else if (97 <=? n) && (n <=? 122) then Some (n - 87)
  else None.

(** Digits of a non-negative integer, least significant first. *)
Fixpoint rev_digits (base : Z) (fuel : nat) (n : Z) : pystr :=
  match fuel with
  | O => []
  | S k => digit_char (n mod base)
           :: (if n <? base then [] else rev_digits base k (n / base))
  end.

(** Enough fuel for every digit of [n] in any base from 2 on. *)
Definition digit_fuel (n : Z) : nat := S (S (Z.to_nat (Z.log2 n))).

(** Digits, least significant first, with the fuel that gives them all. *)
Definition lsd_digits (base n : Z) : pystr := rev_digits base (digit_fuel n) n.

Definition digits (base n : Z) : pystr := rev (lsd_digits base n).

(** [str(n)] on an integer. *)
Definition str (n : Z) : pystr :=
  if n <? 0 then "-"%char :: digits 10 (- n) else digits 10 n.

(** [s.rjust(width, fill)]. *)
Definition rjust (s : pystr) (width : nat) (fill : ascii) : pystr :=
  repeat fill (width - length s) ++ s.

(** [f"{n:02X}"]: upper-case hexadecimal, zero-padded to two characters (the
    sign, if any, counts in the width). *)
Definition format_02X (n : Z) : pystr :=
  if n <? 0 then "-"%char :: rjust (digits 16 (- n)) 1 "0"
  else rjust (digits 16 n) 2 "0".

(** Sign of an integer literal. *)
Definition strip_sign (s : pystr) : bool * pystr :=
  match s with
  | c :: t =>
      if Ascii.eqb c "-" then (true, t)
      else if Ascii.eqb c "+" then (false, t)
      else (false, s)
  | [] => (false, [])
  end.

(** The "0x" / "0X" prefix that base 16 accepts after the sign. *)
Definition strip_0x (base : Z) (s : pystr) : pystr :=
  match s with
  | c0 :: c1 :: t =>
      if (base =? 16) && Ascii.eqb c0 "0" && (Ascii.eqb c1 "x" || Ascii.eqb c1 "X")
      then t else s
  | _ => s
  end.

Fixpoint parse_digits (base : Z) (acc : Z) (s : pystr) : option Z :=
  match s with
  | [] => Some acc
  | c :: t =>
      match digit_value c with
      | Some d => if d <? base then parse_digits base (acc * base + d) t else None
      | None => None
      end
  end.

(** [int(s, base)] on the strings the codecs build: an optional sign, for
    base 16 an optional "0x", then at least one digit below the base;
    anything else is a [ValueError].  (White space and underscores, which
    [int] also accepts, never occur in those strings: their characters come
    from [str] of an integer and from the [02X] format.) *)
Definition int (s : pystr) (base : Z) : result Z :=
  let (neg, s1) := strip_sign s in
  let s2 := strip_0x base s1 in
  match s2 with
  | [] => Raise ValueError
  | _ =>
      match parse_digits base 0 s2 with
      | Some v => Ret (if neg then - v else v)
      | None => Raise ValueError
      end
  end.

(** [bytes(l)] on a list of integers. *)
Definition bytes_of_ints (l : list Z) : result bytes :=
  if forallb (fun x => (0 <=? x) && (x <? 256)) l then Ret l else Raise ValueError.

(** [range(n)]. *)
Definition range (n : Z) : list Z := map Z.of_nat (seq 0 (Z.to_nat n)).

(** [len(s)]. *)
Definition len {A} (s : list A) : Z := Z.of_nat (length s).

(** [s[-1]]. *)
Definition getitem_last {A} (s : list A) : result A :=
  match s with
  | [] => Raise IndexError
  | _ => getitem s (length s - 1)
  end.

(** [a == b] on two [bytes] objects. *)
Fixpoint bytes_eqb (a b : bytes) : bool :=
  match a, b with
  | [], [] => true
  | x :: a', y :: b' => (x =? y) && bytes_eqb a' b'
  | _, _ => false
  end.

(** [s.startswith(prefix)]. *)
Fixpoint startswith (s prefix : pystr) {struct prefix} : bool :=
  match prefix, s with
  | [], _ => true
  | p :: prefix', c :: s' => Ascii.eqb c p && startswith s' prefix'
  | _ :: _, [] => false
  end.

(** ASCII white space (CPython's [Py_ISSPACE]): tab, line feed, vertical tab,
    form feed, carriage return, space. *)
Definition isspace (c : ascii) : bool :=
  let n := Z.of_N (N_of_ascii c) in
  ((9 <=? n) && (n <=? 13)) || (n =? 32).

Definition hex_value (c : ascii) : option Z :=
  match digit_value c with
  | Some d => if d <? 16 then Some d else None
  | None => None
  end.

(** [bytes.fromhex(s)]: pairs of hexadecimal digits, white space allowed
    before each pair; anything else is a [ValueError]. *)
Fixpoint fromhex (s : pystr) : result bytes :=
  match s with
  | [] => Ret []
  | c :: t =>
      if isspace c then fromhex t
      else
        match hex_value c, t with
        | Some top, d :: t' =>
            match hex_value d with
            | Some bot => rest <- fromhex t' ;; Ret (top * 16 + bot :: rest)
            | None => Raise ValueError
            end
        | _, _ => Raise ValueError
        end
  end.

(** A [for] loop whose body may [return] a value ([Some]) or fall through to
    the next element ([None]), and may raise. *)
Fixpoint for_return {A B} (body : A -> result (option B)) (l : list A)
  : result (option B) :=
  match l with
  | [] => Ret None
  | x :: t =>
      r <- body x ;;
      match r with
      | Some v => Ret (Some v)
      | None => for_return body t
      end
  end.

End Py.

(** ** The serial port

    [pyserial]'s port is an external collaborator; the engine sees it through
    [write] and [read_until].  The state of the port is what has been written
    so far and the script of what the successive [read_until] calls will
    return: each entry is one frame ended by the terminator, or whatever
    arrived before the port's read timeout (possibly nothing).  Past the end
    of the script every read times out empty. *)
Record Serial : Type := {
  written : list bytes;
  incoming : list bytes
}.

Definition write (data : bytes) (ser : Serial) : Serial :=
  {| written := written ser ++ [data]; incoming := incoming ser |}.

Definition read_until (ser : Serial) : bytes * Serial :=
  match incoming ser with
  | [] => ([], ser)
  | r :: rest => (r, {| written := written ser; incoming := rest |})
  end.

(** ** The class [Device] *)

(** The fields of a [Device] besides the port. *)
Record Device : Type := {
  _read_attempts : Z;
  transceiver_address : bytes;
  controller_address : bytes
}.

(** An argument of [__init__]: a [str], or an object of another type. *)
Inductive pyobj : Type :=
| PyStr (s : pystr)
| PyOther.

(** The address validation of [Device.__init__]: [isinstance(a, str) and
    str(a).startswith("0x")], then [bytes.fromhex(a[2:])]. *)
Definition parse_address (address : pyobj) : result bytes :=
  match address with
  | PyStr s =>
      if Py.startswith s (lit "0x") then Py.fromhex (skipn 2 s)
      else Raise ValueError
  | PyOther => Raise ValueError
  end.

(** [Device.__init__], after the port is opened: the transceiver address is
    validated first, then the controller address. *)
Definition __init__ (radio_address controller_address : pyobj) (attempts : Z)
  : result Device :=
  t <- parse_address radio_address ;;
  c <- parse_address controller_address ;;
  Ret {| _read_attempts := attempts;
         transceiver_address := t;
         controller_address := c |}.

(** *** [Device._send_command] *)

(** The local variables of the read loop.  [i] is unbound until the [for]
    statement assigns it; [reply] starts as the empty string. *)
Record locals : Type := {
  i : option Z;
  reply : bytes;
  valid_reply : bool
}.

(** How one pass through the loop body ends. *)
Inductive flow : Type :=
| Next (l : locals)
| Break (l : locals)
| Raised (e : exn).

(** The frame [_send_command] builds. *)
Definition command_string (self : Device) (command data preamble : bytes) : bytes :=
  preamble ++ [0xfe; 0xfe] ++ transceiver_address self ++ controller_address self
  ++ command ++ data ++ [0xfd].

(** One pass through the body of [for i in range(self._read_attempts)], with
    [k] the value the [for] statement assigns to [i]. *)
Definition loop_body (self : Device) (cs : bytes) (k : Z) (l : locals) (ser : Serial)
  : flow * Serial :=
  let (reply, ser) := read_until ser in
  if Py.bytes_eqb reply cs then
    (* i -= 1 *)
    (Next {| i := Some (k - 1); reply := reply; valid_reply := valid_reply l |}, ser)
  else if Py.len reply >? 2 then
    match Py.getitem reply 2 with
    | Raise e => (Raised e, ser)
    | Ret b2 =>
    match Py.getitem reply 3 with
    | Raise e => (Raised e, ser)
    | Ret b3 =>
    match Py.getitem reply (Z.to_nat (Py.len reply - 2)) with
    | Raise e => (Raised e, ser)
    | Ret bc =>
        let target_controller := [b2] in
        let source_transceiver := [b3] in
        let reply_code := [bc] in
        if negb (Py.bytes_eqb target_controller (controller_address self))
           || negb (Py.bytes_eqb source_transceiver (transceiver_address self))
        then
          (* i -= 1 *)
          (Next {| i := Some (k - 1); reply := reply; valid_reply := valid_reply l |},
           ser)
        else if Py.bytes_eqb reply_code [0xfa] then
          (Raised (CivCommandException reply_code), ser)
        else
          (Break {| i := Some k; reply := reply; valid_reply := true |}, ser)
    end end end
  else
    (Next {| i := Some k; reply := reply; valid_reply := valid_reply l |}, ser).

(** The [for] statement: each pass rebinds [i] to the next element of the
    range, whatever the body did to it. *)
Fixpoint for_range (self : Device) (cs : bytes) (idx : list Z) (l : locals)
  (ser : Serial) : flow * Serial :=
  match idx with
  | [] => (Next l, ser)
  | k :: rest =>
      match loop_body self cs k l ser with
      | (Next l', ser') => for_range self cs rest l' ser'
      | stop => stop
      end
  end.

(** The method itself.  [command] is a [bytes] object here, so that of the
    two argument checks the length check remains.  The frame is written once,
    then the loop reads; after the loop the timeout exception is built from
    [i], which is bound only if the loop body ran. *)
Definition _send_command (self : Device) (command data preamble : bytes)
  (ser : Serial) : result bytes * Serial :=
  if negb (existsb (Z.eqb (Py.len command)) [1; 2; 3; 4]) then (Raise ValueError, ser)
  else
    let cs := command_string self command data preamble in
    let ser := write cs ser in
    let start := {| i := None; reply := []; valid_reply := false |} in
    match for_range self cs (Py.range (_read_attempts self)) start ser with
    | (Raised e, ser) => (Raise e, ser)
    | (Next l, ser) | (Break l, ser) =>
        if negb (valid_reply l) then
          match i l with
          | Some i => (Raise (CivTimeoutException (i + 1)), ser)
          | None => (Raise UnboundLocalError, ser)
          end
        else (Ret (reply l), ser)
    end.

(** ** Numeric codecs of [Device] *)

(** [Device._encode_frequency]. *)
Definition _encode_frequency (frequency : Z) : result bytes :=
  let frequency_str := Py.rjust (Py.str frequency) 10 "0" in
  let inverted_freq := rev frequency_str in
  let pair (hi lo : nat) : result pystr :=
    h <- Py.getitem inverted_freq hi ;;
    l <- Py.getitem inverted_freq lo ;;
    Ret (lit "0x" ++ [h; l]) in
  h0 <- pair 1%nat 0%nat ;;
  h1 <- pair 3%nat 2%nat ;;
  h2 <- pair 5%nat 4%nat ;;
  h3 <- pair 7%nat 6%nat ;;
  h4 <- pair 9%nat 8%nat ;;
  let hex_list := [h0; h1; h2; h3; h4] in
  ints <- comprehension (fun hx => Py.int hx 16) hex_list ;;
  Py.bytes_of_ints ints.

(** [Device._decode_frequency]. *)
Definition _decode_frequency (bcd_bytes : bytes) : result Z :=
  let reversed_bcd := rev bcd_bytes in
  let frequency_bcd := concat (map Py.format_02X reversed_bcd) in
  Py.int frequency_bcd 10.

(** [Device._bytes_to_int]; both arguments are the integers that indexing a
    [bytes] reply yields. *)
Definition _bytes_to_int (first_byte second_byte : Z) : result Z :=
  v <- Py.int (Py.format_02X second_byte) 10 ;;
  Ret (first_byte * 100 + v).

(** [Device.send_operating_frequency]. *)
Definition send_operating_frequency (self : Device) (frequency_hz : Z) (ser : Serial)
  : result bool * Serial :=
  if negb ((10000 <=? frequency_hz) && (frequency_hz <=? 74000000))
  then (Raise ValueError, ser)
  else
    match _encode_frequency frequency_hz with
    | Raise e => (Raise e, ser)
    | Ret data =>
        match _send_command self [0x05] data [] ser with
        | (Raise e, ser) => (Raise e, ser)
        | (Ret reply, ser) => (Ret (Py.len reply >? 0), ser)
        end
    end.

(** *** [Device._linear_interpolate]

    The raw values are integers; the meter values are Python numbers, here
    exact rationals: the model computes the value of the returned expression
    without the rounding of floating-point division.  The result records
    which [return] statement produced it. *)
Inductive exit_path : Type :=
| AtBreakpoint
| BetweenBreakpoints
| BelowFirst
| AboveLast
| NotPossible.

(** The expression [y0 + (y1 - y0) * (raw_value - x0) / (x1 - x0)].  The
    loop evaluates it only under [x0 < raw_value < x1], where the divisor is
    positive. *)
Definition interpolation (raw_value : Z) (p0 p1 : Z * Q) : Q :=
  let (x0, y0) := p0 in
  let (x1, y1) := p1 in
  (y0 + (y1 - y0) * inject_Z (raw_value - x0) / inject_Z (x1 - x0))%Q.

Definition _linear_interpolate (raw_value : Z) (points : list (Z * Q))
  : result (exit_path * Q) :=
  matched <- Py.for_return
               (fun point : Z * Q =>
                  if raw_value =? fst point then Ret (Some (snd point)) else Ret None)
               points ;;
  match matched with
  | Some v => Ret (AtBreakpoint, v)
  | None =>
      between <- Py.for_return
                   (fun i : Z =>
                      p0 <- Py.getitem points (Z.to_nat i) ;;
                      p1 <- Py.getitem points (Z.to_nat (i + 1)) ;;
                      if (fst p0 <? raw_value) && (raw_value <? fst p1)
                      then Ret (Some (interpolation raw_value p0 p1))
                      else Ret None)
                   (Py.range (Py.len points - 1)) ;;
      match between with
      | Some v => Ret (BetweenBreakpoints, v)
      | None =>
          first <- Py.getitem points 0 ;;
          if raw_value <? fst first then Ret (BelowFirst, snd first)
          else
            last <- Py.getitem_last points ;;
            if raw_value >? fst last then Ret (AboveLast, snd last)
            else Ret (NotPossible, (-1)%Q)
      end
  end.

(** ** Vocabulary of the statements *)

(** Decimal digit [i] of [f] (digit 0 is the least significant), and the
    packed-decimal byte holding digits [2i+1] and [2i]. *)
Definition dec_digit (f i : Z) : Z := f / 10 ^ i mod 10.

Definition bcd_byte (f i : Z) : Z :=
  16 * dec_digit f (2 * i + 1) + dec_digit f (2 * i).

Definition bcd5 (f : Z) : bytes := map (bcd_byte f) [0; 1; 2; 3; 4].

(** What [int] makes of the two printed hexadecimal digits of a byte. *)
Definition packed_decimal (b : Z) : result Z :=
  if (b / 16 <? 10) && (b mod 16 <? 10) then Ret (10 * (b / 16) + b mod 16)
  else Raise ValueError.

Definition pystr_eqb (a b : pystr) : bool :=
  if list_eq_dec ascii_dec a b then true else false.

Definition result_Z_eqb (r1 r2 : result Z) : bool :=
  match r1, r2 with
  | Ret x, Ret y => x =? y
  | Raise ValueError, Raise ValueError => true
  | _, _ => false
  end.

(** The characters of an address text that are not white space. *)
Definition non_space (s : pystr) : pystr := filter (fun c => negb (Py.isspace c)) s.

Definition is_hex_digit (c : ascii) : Prop := Py.hex_value c <> None.

(** The kinds of read the exchange loop tells apart.  An echo is the frame
    just sent; silence is a read of at most two bytes; a frame is addressed
    to this device when byte 2 is the controller address and byte 3 the
    transceiver address, and foreign when it has both bytes and one differs. *)
Definition is_echo (cs r : bytes) : Prop := r = cs.

Definition is_silence (r : bytes) : Prop := (length r <= 2)%nat.

Definition addressed_to (self : Device) (r : bytes) : Prop :=
  exists c t, nth_error r 2 = Some c /\ nth_error r 3 = Some t /\
              controller_address self = [c] /\ transceiver_address self = [t].

Definition is_foreign (self : Device) (r : bytes) : Prop :=
  exists c t, nth_error r 2 = Some c /\ nth_error r 3 = Some t /\
              (controller_address self <> [c] \/ transceiver_address self <> [t]).

(** The byte at the second-to-last position. *)
Definition status_byte (r : bytes) : option Z := nth_error r (length r - 2).

(** A read the loop passes over without ending the call. *)
Definition passed_over (self : Device) (cs r : bytes) : Prop :=
  is_echo cs r \/ is_silence r \/ is_foreign self r.

(** A reply that ends the call with success: not the echo, addressed to this
    device, and with a status byte other than the negative acknowledge. *)
Definition accepted (self : Device) (cs r : bytes) : Prop :=
  r <> cs /\ addressed_to self r /\
  exists code, status_byte r = Some code /\ code <> 0xfa.

(** The state of the port after the frame [cs] went out and [n] reads were
    taken from the script. *)
Definition after_reads (cs : bytes) (n : nat) (ser : Serial) : Serial :=
  {| written := written ser ++ [cs]; incoming := skipn n (incoming ser) |}.

(** The command length check of [_send_command]. *)
Definition valid_command (command : bytes) : Prop :=
  (1 <= length command <= 4)%nat.

(** Strictly ascending raw values. *)
Definition raw_lt (p q : Z * Q) : Prop := fst p < fst q.

(** The point [(x, v)] lies on the straight line through the breakpoints
    [p0] and [p1]. *)
Definition on_line (p0 p1 : Z * Q) (x : Z) (v : Q) : Prop :=
  ((v - snd p0) * inject_Z (fst p1 - fst p0)
   == (snd p1 - snd p0) * inject_Z (x - fst p0))%Q.

(** *** Sample data

    An IC-7300 at address 0x94 driven by a controller at 0xE0, the frame of
    the "read operating frequency" command (opcode 0x03) and frames seen on
    the bus. *)
Definition ic7300 (attempts : Z) : Device :=
  {| _read_attempts := attempts;
     transceiver_address := [0x94];
     controller_address := [0xe0] |}.

Definition port (script : list bytes) : Serial :=
  {| written := []; incoming := script |}.

Definition read_frequency_frame : bytes := [0xfe; 0xfe; 0x94; 0xe0; 0x03; 0xfd].

Definition frequency_reply : bytes :=
  [0xfe; 0xfe; 0xe0; 0x94; 0x03; 0x00; 0x00; 0x07; 0x14; 0x00; 0xfd].

Definition ng_reply : bytes := [0xfe; 0xfe; 0xe0; 0x94; 0xfa; 0xfd].

(** A frame from the transceiver to another controller (address 0x00). *)
Definition foreign_frame : bytes := [0xfe; 0xfe; 0x00; 0x94; 0x03; 0x00; 0xfd].

Definition alc_points : list (Z * Q) := [(0, 0%Q); (120, 100%Q)].

(** ** Further builtins *)

Module PyMore.

(** The bounds of a slice [s[start:stop]]: a negative index counts from the
    end, and both ends are clipped to the sequence. *)
Definition slice_index (n k : Z) : Z :=
  if k <? 0 then Z.max 0 (k + n) else Z.min k n.

(** [s[start:stop]]. *)
Definition slice {A} (s : list A) (start stop : Z) : list A :=
  let a := slice_index (Py.len s) start in
  let b := slice_index (Py.len s) stop in
  firstn (Z.to_nat (b - a)) (skipn (Z.to_nat a) s).

(** [sep.join(l)]. *)
Fixpoint join (sep : pystr) (l : list pystr) : pystr :=
  match l with
  | [] => []
  | [s] => s
  | s :: t => s ++ sep ++ join sep t
  end.

(** Lower case of an upper-case letter. *)
Definition lower (c : ascii) : ascii :=
  let n := Z.of_N (N_of_ascii c) in
  if (65 <=? n) && (n <=? 90) then ascii_of_N (Z.to_N (n + 32)) else c.

(** [b.hex()] on a [bytes] object: two lower-case digits for each byte. *)
Definition hex (b : bytes) : pystr :=
  concat (map (fun x => map lower (Py.format_02X x)) b).

(** The digits of [n] in base 256, least significant first, [length] of
    them. *)
Fixpoint le_bytes (length : nat) (n : Z) : bytes :=
  match length with
  | O => []
  | S k => n mod 256 :: le_bytes k (n / 256)
  end.

End PyMore.

(** ** Further exceptions

    Two builtins used below raise exceptions that [exn] does not list:
    [int.to_bytes] raises [OverflowError], [str.encode("ascii")] raises
    [UnicodeEncodeError]. *)
Inductive error : Type :=
| Core (e : exn)
| OverflowError
| UnicodeEncodeError.

Inductive outcome (A : Type) : Type :=
| Done (a : A)
| Fail (e : error).
Arguments Done {A} a.
Arguments Fail {A} e.

(** [n.to_bytes(length, byteorder)], unsigned. *)
Definition to_bytes (n : Z) (length : nat) (little : bool) : outcome bytes :=
  if (0 <=? n) && (n <? 256 ^ Z.of_nat length) then
    Done (if little then PyMore.le_bytes length n
          else rev (PyMore.le_bytes length n))
  else Fail OverflowError.

(** A text as its code points, for the methods that look at characters
    beyond one byte: [ord(c)] is the element itself. *)
Definition text := list Z.

(** [message.encode("ascii")]. *)
Definition encode_ascii (message : text) : outcome bytes :=
  if forallb (fun c => (0 <=? c) && (c <? 128)) message then Done message
  else Fail UnicodeEncodeError.

(** Python numbers that may be floats are exact rationals here.  [x % y]
    takes the sign of the divisor; [int(x)] truncates towards zero. *)
Definition Qmod (x y : Q) : Q := (x - y * inject_Z (Qfloor (x / y)))%Q.

Definition Qint (x : Q) : Z := if Qle_bool 0 x then Qfloor x else Qceiling x.

(** ** Methods that talk to the port

    The port goes in and comes out; an exception ends the method where it
    is raised. *)
Definition io (A : Type) : Type := Serial -> result A * Serial.

Definition io_ret {A} (a : A) : io A := fun ser => (Ret a, ser).

Definition io_raise {A} (e : exn) : io A := fun ser => (Raise e, ser).

(** A computation without traffic on the port. *)
Definition io_lift {A} (r : result A) : io A := fun ser => (r, ser).

Definition io_bind {A B} (m : io A) (k : A -> io B) : io B :=
  fun ser =>
    match m ser with
    | (Ret a, ser') => k a ser'
    | (Raise e, ser') => (Raise e, ser')
    end.

Notation "x <~ m ;; k" := (io_bind m (fun x => k))
  (at level 61, m at next level, right associativity).

(** [try: m  except: return fallback]: the bare [except] catches every
    exception, the two of this module included. *)
Definition io_try {A} (m : io A) (fallback : A) : io A :=
  fun ser =>
    match m ser with
    | (Ret a, ser') => (Ret a, ser')
    | (Raise _, ser') => (Ret fallback, ser')
    end.

(** [Device._convert_to_range]. *)
Definition _convert_to_range (input_value old_min old_max new_min new_max : Q) : Q :=
  let old_range := (old_max - old_min)%Q in
  if Qeq_bool old_range 0 then new_min
  else
    let new_range := (new_max - new_min)%Q in
    ((input_value - old_min) * new_range / old_range + new_min)%Q.

(** [Device._bytes_to_string]. *)
Definition _bytes_to_string (bytes_array : bytes) : pystr :=
  lit "0x" ++ PyMore.join (lit " 0x") (map Py.format_02X bytes_array).

(** [Device._encode_2_bytes_value]. *)
Definition _encode_2_bytes_value (value : Z) : outcome bytes :=
  to_bytes value 2 true.

(** [Device.read_transceiver_id]. *)
Definition read_transceiver_id (self : Device) : io bytes :=
  reply <~ _send_command self [0x19; 0x00] [] [] ;;
  if Py.len reply >? 0 then io_ret (PyMore.slice reply (-2) (-1))
  else io_ret [0x00].

(** [Device.read_operating_frequency]. *)
Definition read_operating_frequency (self : Device) : io Z :=
  io_try
    (reply <~ _send_command self [0x03] [] [] ;;
     io_lift (_decode_frequency (PyMore.slice reply 5 10)))
    (-1).

(** The enumeration [OperatingMode] with its values, the lookup by value
    [OperatingMode(n)] and the attribute [name]. *)
Inductive OperatingMode : Type :=
| LSB | USB | AM | CW | RTTY | FM | NFM | CWR | RTTYR.

Definition OperatingMode_value (m : OperatingMode) : Z :=
  match m with
  | LSB => 0 | USB => 1 | AM => 2 | CW => 3 | RTTY => 4
  | FM => 5 | NFM => 6 | CWR => 7 | RTTYR => 8
  end.

Definition OperatingMode_of (n : Z) : result OperatingMode :=
  match find (fun m => OperatingMode_value m =? n)
             [LSB; USB; AM; CW; RTTY; FM; NFM; CWR; RTTYR] with
  | Some m => Ret m
  | None => Raise ValueError
  end.

Definition OperatingMode_name (m : OperatingMode) : pystr :=
  match m with
  | LSB => lit "LSB" | USB => lit "USB" | AM => lit "AM" | CW => lit "CW"
  | RTTY => lit "RTTY" | FM => lit "FM" | NFM => lit "NFM" | CWR => lit "CWR"
  | RTTYR => lit "RTTYR"
  end.

(** The enumeration [SelectedFilter]. *)
Inductive SelectedFilter : Type :=
| FIL1 | FIL2 | FIL3.

Definition SelectedFilter_value (f : SelectedFilter) : Z :=
  match f with FIL1 => 1 | FIL2 => 2 | FIL3 => 3 end.

Definition SelectedFilter_of (n : Z) : result SelectedFilter :=
  match find (fun f => SelectedFilter_value f =? n) [FIL1; FIL2; FIL3] with
  | Some f => Ret f
  | None => Raise ValueError
  end.

Definition SelectedFilter_name (f : SelectedFilter) : pystr :=
  match f with FIL1 => lit "FIL1" | FIL2 => lit "FIL2" | FIL3 => lit "FIL3" end.

(** [Device.read_operating_mode]: the pair stands for the two-element list
    the method returns. *)
Definition read_operating_mode (self : Device) : io (pystr * pystr) :=
  reply <~ _send_command self [0x04] [] [] ;;
  if Py.len reply =? 8 then
    n <~ io_lift (Py.int (PyMore.hex (PyMore.slice reply 5 6)) 10) ;;
    mode <~ io_lift (OperatingMode_of n) ;;
    k <~ io_lift (Py.int (PyMore.hex (PyMore.slice reply 6 7)) 10) ;;
    fil <~ io_lift (SelectedFilter_of k) ;;
    io_ret (OperatingMode_name mode, SelectedFilter_name fil)
  else io_ret (lit "ERR", lit "ERR").

(** [Device.set_operating_mode]. *)
Definition set_operating_mode (self : Device) (mode : OperatingMode)
  (filter : SelectedFilter) : io unit :=
  data <~ io_lift (Py.bytes_of_ints
                     [OperatingMode_value mode; SelectedFilter_value filter]) ;;
  _ <~ _send_command self [0x06] data [] ;;
  io_ret tt.

(** [Device.read_af_volume]. *)
Definition read_af_volume (self : Device) : io Q :=
  reply <~ _send_command self [0x14; 0x01] [] [] ;;
  if Py.len reply =? 9 then
    b6 <~ io_lift (Py.getitem reply 6) ;;
    b7 <~ io_lift (Py.getitem reply 7) ;;
    raw_value <~ io_lift (_bytes_to_int b6 b7) ;;
    io_ret (_convert_to_range (inject_Z raw_value) 0 255 0 100)
  else io_ret (-1)%Q.

(** [Device.read_smeter]. *)
Definition read_smeter (self : Device) : io Z :=
  reply <~ _send_command self [0x15; 0x02] [] [] ;;
  if Py.len reply =? 9 then
    b6 <~ io_lift (Py.getitem reply 6) ;;
    b7 <~ io_lift (Py.getitem reply 7) ;;
    io_lift (_bytes_to_int b6 b7)
  else io_ret (-1).

(** [Device.read_squelch_status]: [not bool(reply[6])]. *)
Definition read_squelch_status (self : Device) : io bool :=
  reply <~ _send_command self [0x15; 0x01] [] [] ;;
  b6 <~ io_lift (Py.getitem reply 6) ;;
  io_ret (negb (negb (b6 =? 0))).

(** The breakpoints of [Device.read_swr_meter]. *)
Definition swr_points : list (Z * Q) :=
  [(0, 1%Q); (48, 1.5%Q); (80, 2.0%Q); (120, 3.0%Q); (255, 99%Q)].

(** [Device.read_swr_meter]. *)
Definition read_swr_meter (self : Device) : io Q :=
  reply <~ _send_command self [0x15; 0x12] [] [] ;;
  if Py.len reply =? 9 then
    b6 <~ io_lift (Py.getitem reply 6) ;;
    b7 <~ io_lift (Py.getitem reply 7) ;;
    raw_value <~ io_lift (_bytes_to_int b6 b7) ;;
    let points := swr_points in
    r <~ io_lift (_linear_interpolate raw_value points) ;;
    io_ret (snd r)
  else io_ret (-1)%Q.

(** The data bytes [Device.set_memory_mode] builds for a channel that
    passed its range check: the list [hex_list] and its conversion. *)
Definition memory_channel_data (memory_channel : Z) : result bytes :=
  hex_list <- (if (0 <? memory_channel) && (memory_channel <? 100)
               then Ret [lit "0x00"]
               else if existsb (Z.eqb memory_channel) [100; 101]
                    then Ret [lit "0x01"]
                    else Raise ValueError) ;;
  let number_as_string := Py.rjust (Py.str memory_channel) 3 "0" in
  c1 <- Py.getitem number_as_string 1 ;;
  c2 <- Py.getitem number_as_string 2 ;;
  let hex_list := hex_list ++ [lit "0x" ++ [c1; c2]] in
  ints <- comprehension (fun hx => Py.int hx 16) hex_list ;;
  Py.bytes_of_ints ints.

(** [Device.set_memory_mode]. *)
Definition set_memory_mode (self : Device) (memory_channel : Z) : io unit :=
  if negb ((1 <=? memory_channel) && (memory_channel <=? 101))
  then io_raise ValueError
  else
    data <~ io_lift (memory_channel_data memory_channel) ;;
    _ <~ _send_command self [0x08] data [] ;;
    io_ret tt.

(** [Device.set_nb_depth]. *)
Definition set_nb_depth (self : Device) (depth : Z) : io bool :=
  if negb ((1 <=? depth) && (depth <=? 10)) then io_raise ValueError
  else
    data <~ io_lift (Py.bytes_of_ints [depth - 1]) ;;
    reply <~ _send_command self [0x1a; 0x05; 0x01; 0x89] data [] ;;
    io_ret (Py.len reply >? 0).

(** [Device.set_scope_fixed_edge_frequencies].  The list of the membership
    test is the source's [[1 - 3]]. *)
Definition set_scope_fixed_edge_frequencies (self : Device)
  (edge_number lower_frequency higher_frequency : Z) : io unit :=
  if negb (existsb (Z.eqb edge_number) [1 - 3]) then io_raise ValueError
  else if negb ((10000 <=? lower_frequency) && (lower_frequency <=? 74000000))
          || negb ((10000 <=? higher_frequency) && (higher_frequency <=? 74000000))
  then io_raise ValueError
  else
    lower_freq_bytes <~ io_lift (_encode_frequency lower_frequency) ;;
    higher_freq_bytes <~ io_lift (_encode_frequency higher_frequency) ;;
    edge <~ io_lift (Py.bytes_of_ints [edge_number]) ;;
    let data := edge ++ lower_freq_bytes ++ higher_freq_bytes in
    _ <~ _send_command self [0x27; 0x1e] data [] ;;
    io_ret tt.

(** Methods that can end in one of the further exceptions. *)
Definition xio (A : Type) : Type := Serial -> outcome A * Serial.

(** The call of [_send_command] at the end of such a method, its result
    dropped. *)
Definition send_and_drop (self : Device) (command data : bytes) : xio unit :=
  fun ser =>
    match _send_command self command data [] ser with
    | (Ret _, ser') => (Done tt, ser')
    | (Raise e, ser') => (Fail (Core e), ser')
    end.

(** [Device.set_scope_reference_level]. *)
Definition set_scope_reference_level (self : Device) (level : Q) : xio unit :=
  fun ser =>
    if negb (Qle_bool (-20) level && Qle_bool level 20)
    then (Fail (Core ValueError), ser)
    else if negb (Qeq_bool (Qmod level 0.5) 0)
    then (Fail (Core ValueError), ser)
    else
      let level_int := Qint (level * 20) in
      match to_bytes level_int 2 true with
      | Fail e => (Fail e, ser)
      | Done level_bytes =>
          if Qle_bool 0 level
          then send_and_drop self [0x27; 0x19] ([0x00] ++ level_bytes) ser
          else send_and_drop self [0x27; 0x19] ([0x01] ++ level_bytes) ser
      end.

(** [Device.set_nb_width]. *)
Definition set_nb_width (self : Device) (width : Z) : xio bool :=
  fun ser =>
    if negb ((1 <=? width) && (width <=? 100)) then (Fail (Core ValueError), ser)
    else
      match _encode_2_bytes_value (width - 1) with
      | Fail e => (Fail e, ser)
      | Done width_bytes =>
          match _send_command self [0x1a; 0x05; 0x01; 0x90] width_bytes [] ser with
          | (Ret reply, ser') => (Done (Py.len reply >? 0), ser')
          | (Raise e, ser') => (Fail (Core e), ser')
          end
      end.

(** The loop [while len(name_bytes) < 10: name_bytes += b"\x20"] of
    [set_memory_name], with the number of passes it may take. *)
Fixpoint pad_name (passes : nat) (name_bytes : bytes) : bytes :=
  match passes with
  | O => name_bytes
  | S k =>
      if Py.len name_bytes <? 10 then pad_name k (name_bytes ++ [0x20])
      else name_bytes
  end.

(** [Device.set_memory_name]; the loop over the characters appends
    [bytes([ord(char)])], which raises for a code point above 255. *)
Definition set_memory_name (self : Device) (memory_channel : Z) (name : text)
  : xio unit :=
  fun ser =>
    if negb ((1 <=? memory_channel) && (memory_channel <=? 99))
    then (Fail (Core ValueError), ser)
    else if Py.len name >? 10 then (Fail (Core ValueError), ser)
    else
      match to_bytes memory_channel 2 false with
      | Fail e => (Fail e, ser)
      | Done channel_bytes =>
          match comprehension (fun char => Py.bytes_of_ints [char]) name with
          | Raise e => (Fail (Core e), ser)
          | Ret chunks =>
              let name_bytes := pad_name 10 (concat chunks) in
              let data := channel_bytes ++ [0x00]
                          ++ [0x00; 0x00; 0x00; 0x00; 0x00; 0x00; 0x00; 0x00; 0x00; 0x00]
                          ++ name_bytes in
              send_and_drop self [0x1a; 0x00] data ser
          end
      end.

(** [Device.send_cw_message]. *)
Definition send_cw_message (self : Device) (message : text) : xio unit :=
  fun ser =>
    if Py.len message >? 30 then (Fail (Core ValueError), ser)
    else
      match encode_ascii message with
      | Fail e => (Fail e, ser)
      | Done message_bytes => send_and_drop self [0x17] message_bytes ser
      end.

(** ** Further vocabulary *)

(** A byte of packed decimal: both nibbles are decimal digits. *)
Definition is_bcd (b : Z) : Prop := 0 <= b < 256 /\ b / 16 < 10 /\ b mod 16 < 10.

Definition is_bcdb (b : Z) : bool :=
  (0 <=? b) && (b <? 256) && (b / 16 <? 10) && (b mod 16 <? 10).

(** A [bytes] object proper: every element in [range(256)]. *)
Definition well_formed (b : bytes) : Prop := Forall (fun x => 0 <= x < 256) b.

(** The frame a method sends: no preamble. *)
Definition frame (self : Device) (command data : bytes) : bytes :=
  command_string self command data [].

(** A reply of nine bytes in which the radio reports the level 128 out of
    255, and the frame of a reply that carries a frequency. *)
Definition level_reply : bytes :=
  [0xfe; 0xfe; 0xe0; 0x94; 0x14; 0x01; 0x01; 0x28; 0xfd].

Definition frequency_frame (f : Z) : bytes :=
  [0xfe; 0xfe; 0xe0; 0x94; 0x03] ++ bcd5 f ++ [0xfd].

(** ** Facts about the builtins *)

(** A property checked on every element of [range(n)] holds on the interval. *)
Lemma range_forallb (p : Z -> bool) (n : Z) :
  forallb p (Py.range n) = true -> forall z, 0 <= z < n -> p z = true.
Proof.
  intros H z Hz. rewrite forallb_forall in H. apply H.
  unfold Py.range. apply in_map_iff. exists (Z.to_nat z). split; [lia|].
  apply in_seq. lia.
Qed.

Lemma pystr_eqb_eq a b : pystr_eqb a b = true -> a = b.
Proof. unfold pystr_eqb. destruct (list_eq_dec ascii_dec a b); congruence. Qed.

Module PyFacts.
Import Py.

Lemma digit_value_char d : 0 <= d < 16 -> digit_value (digit_char d) = Some d.
Proof.
  intros Hd.
  pose proof (range_forallb
                (fun d => match digit_value (digit_char d) with
                          | Some v => v =? d | None => false end) 16) as H.
  specialize (H ltac:(vm_compute; reflexivity) d Hd). cbv beta in H.
  destruct (digit_value (digit_char d)); [|discriminate].
  apply Z.eqb_eq in H. congruence.
Qed.

Lemma digit_char_not_sign d :
  0 <= d < 16 ->
  Ascii.eqb (digit_char d) "-" = false /\ Ascii.eqb (digit_char d) "+" = false.
Proof.
  intros Hd.
  pose proof (range_forallb
                (fun d => negb (Ascii.eqb (digit_char d) "-")
                          && negb (Ascii.eqb (digit_char d) "+")) 16) as H.
  specialize (H ltac:(vm_compute; reflexivity) d Hd). cbv beta in H.
  apply andb_true_iff in H. destruct H as [H1 H2].
  apply negb_true_iff in H1, H2. auto.
Qed.

(** *** Fuel of [rev_digits] *)

Lemma rev_digits_fuel base k1 : 2 <= base ->
  forall k2 n, 0 <= n -> n < 2 ^ Z.of_nat k1 -> n < 2 ^ Z.of_nat k2 ->
  rev_digits base (S k1) n = rev_digits base (S k2) n.
Proof.
  intros Hb. induction k1 as [|k1 IH]; intros k2 n Hn H1 H2.
  - assert (n = 0) by (change (2 ^ Z.of_nat 0) with 1 in H1; lia). subst n.
    simpl. destruct (0 <? base) eqn:E; [reflexivity|]. apply Z.ltb_ge in E. lia.
  - cbn [rev_digits]. f_equal. destruct (n <? base) eqn:E; [reflexivity|].
    apply Z.ltb_ge in E.
    destruct k2 as [|k2]; [change (2 ^ Z.of_nat 0) with 1 in H2; lia|].
    rewrite Nat2Z.inj_succ, Z.pow_succ_r in H1, H2 by lia.
    assert (n / base <= n / 2) by (apply Z.div_le_compat_l; lia).
    assert (n / 2 < 2 ^ Z.of_nat k1) by (apply Z.div_lt_upper_bound; lia).
    assert (n / 2 < 2 ^ Z.of_nat k2) by (apply Z.div_lt_upper_bound; lia).
    apply IH; try lia. apply Z.div_pos; lia.
Qed.

Lemma digit_fuel_enough n : 0 <= n -> n < 2 ^ Z.of_nat (S (Z.to_nat (Z.log2 n))).
Proof.
  intros Hn. rewrite Nat2Z.inj_succ, Z2Nat.id by apply Z.log2_nonneg.
  destruct (Z.eq_dec n 0) as [->|]; [reflexivity|].
  apply Z.log2_spec. lia.
Qed.

Lemma digits_rev base n : digits base n = rev (lsd_digits base n).
Proof. reflexivity. Qed.

(** The recursion equation of the digit string, free of fuel. *)
Lemma lsd_digits_eq base n : 2 <= base -> 0 <= n ->
  lsd_digits base n =
  digit_char (n mod base) :: (if n <? base then [] else lsd_digits base (n / base)).
Proof.
  intros Hb Hn. unfold lsd_digits at 1. unfold digit_fuel.
  cbn [rev_digits]. f_equal. destruct (n <? base) eqn:E; [reflexivity|].
  apply Z.ltb_ge in E. unfold lsd_digits, digit_fuel.
  pose proof (digit_fuel_enough n Hn) as Hf.
  assert (Hq : 0 <= n / base) by (apply Z.div_pos; lia).
  pose proof (digit_fuel_enough (n / base) Hq) as Hf'.
  set (k := Z.to_nat (Z.log2 n)) in *.
  rewrite Nat2Z.inj_succ, Z.pow_succ_r in Hf by lia.
  apply rev_digits_fuel; auto.
  assert (n / base <= n / 2) by (apply Z.div_le_compat_l; lia).
  assert (n / 2 < 2 ^ Z.of_nat k) by (apply Z.div_lt_upper_bound; lia).
  lia.
Qed.

(** *** Decimal digits by position *)

Lemma lsd_digits_length_pos base n : 2 <= base -> 0 <= n ->
  (1 <= length (lsd_digits base n))%nat.
Proof. intros Hb Hn. rewrite lsd_digits_eq by assumption. simpl. lia. Qed.

Lemma lsd_digits_length_le (k : nat) : forall n,
  0 <= n < 10 ^ Z.of_nat (S k) -> (length (lsd_digits 10 n) <= S k)%nat.
Proof.
  induction k as [|k IH]; intros n Hn; rewrite lsd_digits_eq by lia.
  - change (10 ^ Z.of_nat 1) with 10 in Hn.
    destruct (n <? 10) eqn:E; [simpl; lia | apply Z.ltb_ge in E; lia].
  - destruct (n <? 10) eqn:E; [simpl; lia|]. apply Z.ltb_ge in E.
    cbn [length]. apply le_n_S, IH.
    rewrite Nat2Z.inj_succ, Z.pow_succ_r in Hn by lia.
    split; [apply Z.div_pos; lia | apply Z.div_lt_upper_bound; lia].
Qed.

Lemma lsd_digits_length_gt (k : nat) : forall n,
  10 ^ Z.of_nat k <= n -> (k < length (lsd_digits 10 n))%nat.
Proof.
  induction k as [|k IH]; intros n Hn.
  - change (10 ^ Z.of_nat 0) with 1 in Hn.
    pose proof (lsd_digits_length_pos 10 n ltac:(lia) ltac:(lia)). lia.
  - rewrite Nat2Z.inj_succ, Z.pow_succ_r in Hn by lia.
    assert (0 < 10 ^ Z.of_nat k) by (apply Z.pow_pos_nonneg; lia).
    rewrite lsd_digits_eq by lia.
    replace (n <? 10) with false by (symmetry; apply Z.ltb_ge; lia).
    cbn [length]. apply -> Nat.succ_lt_mono. apply IH.
    apply Z.div_le_lower_bound; lia.
Qed.

(** Character [i] of the reversed, zero-padded decimal string is decimal
    digit [i] of the number, whether the padding or the digits supply it. *)
Lemma lsd_index (i : nat) : forall n m,
  0 <= n -> (i < length (lsd_digits 10 n) + m)%nat ->
  nth_error (lsd_digits 10 n ++ repeat "0"%char m) i
  = Some (digit_char (n / 10 ^ Z.of_nat i mod 10)).
Proof.
  induction i as [|i IH]; intros n m Hn Hi.
  - rewrite lsd_digits_eq by lia. simpl. now rewrite Z.div_1_r.
  - assert (Hdiv : n / 10 ^ Z.of_nat (S i) = n / 10 / 10 ^ Z.of_nat i).
    { rewrite Nat2Z.inj_succ, Z.pow_succ_r by lia.
      rewrite Z.div_div by lia. reflexivity. }
    rewrite Hdiv. rewrite lsd_digits_eq in Hi |- * by lia.
    destruct (n <? 10) eqn:E.
    + apply Z.ltb_lt in E. simpl in Hi |- *.
      rewrite nth_error_repeat by lia.
      rewrite (Z.div_small n 10), Z.div_0_l by lia. reflexivity.
    + apply Z.ltb_ge in E. cbn [length] in Hi. cbn [app nth_error].
      apply IH; [apply Z.div_pos; lia | lia].
Qed.

Lemma rev_repeat_same {A} (a : A) k : rev (repeat a k) = repeat a k.
Proof.
  induction k as [|k IH]; [reflexivity|].
  cbn [repeat rev]. rewrite IH. symmetry. apply repeat_cons.
Qed.

(** *** Parsing what the formats print *)

Lemma format_02X_byte b : 0 <= b < 256 ->
  format_02X b = [digit_char (b / 16); digit_char (b mod 16)].
Proof.
  intros Hb. apply pystr_eqb_eq.
  exact (range_forallb
           (fun b => pystr_eqb (format_02X b)
                       [digit_char (b / 16); digit_char (b mod 16)])
           256 ltac:(vm_compute; reflexivity) b Hb).
Qed.

Lemma int_ret_or_ValueError s base :
  (exists v, int s base = Ret v) \/ int s base = Raise ValueError.
Proof.
  unfold int. destruct (strip_sign s) as [neg s1].
  destruct (strip_0x base s1); [now right|].
  destruct (parse_digits base 0 _); [left; eauto | now right].
Qed.

Lemma int_hex_pair a b : 0 <= a < 16 -> 0 <= b < 16 ->
  int (lit "0x" ++ [digit_char a; digit_char b]) 16 = Ret (16 * a + b).
Proof.
  intros Ha Hb. unfold int. cbn [lit list_ascii_of_string app strip_sign].
  change (Ascii.eqb "0" "-") with false. change (Ascii.eqb "0" "+") with false.
  cbv iota. unfold strip_0x.
  change ((16 =? 16) && Ascii.eqb "0" "0" && (Ascii.eqb "x" "x" || Ascii.eqb "x" "X"))
    with true. cbv iota. cbn [parse_digits].
  rewrite !digit_value_char by assumption.
  replace (0 * 16 + a <? 16) with true by (symmetry; apply Z.ltb_lt; lia).
  replace (a <? 16) with true by (symmetry; apply Z.ltb_lt; lia).
  replace (b <? 16) with true by (symmetry; apply Z.ltb_lt; lia).
  f_equal. lia.
Qed.

Lemma int_hex_pair_minus_hi c :
  int (lit "0x" ++ ["-"%char; c]) 16 = Raise ValueError.
Proof. reflexivity. Qed.

Lemma int_hex_pair_minus_lo c :
  int (lit "0x" ++ [c; "-"%char]) 16 = Raise ValueError.
Proof.
  unfold int. cbn [lit list_ascii_of_string app strip_sign].
  change (Ascii.eqb "0" "-") with false. change (Ascii.eqb "0" "+") with false.
  cbv iota. unfold strip_0x.
  change ((16 =? 16) && Ascii.eqb "0" "0" && (Ascii.eqb "x" "x" || Ascii.eqb "x" "X"))
    with true. cbv iota. cbn [parse_digits].
  destruct (digit_value c) as [d|]; [|reflexivity].
  destruct (d <? 16); reflexivity.
Qed.

End PyFacts.

(** ** The frequency codec *)

Module Codec.
Import Py PyFacts.

Lemma dec_digit_range f i : 0 <= dec_digit f i < 10.
Proof. unfold dec_digit. apply Z.mod_pos_bound. lia. Qed.

Lemma bcd_byte_range f i : 0 <= bcd_byte f i < 256.
Proof.
  unfold bcd_byte.
  pose proof (dec_digit_range f (2 * i + 1)). pose proof (dec_digit_range f (2 * i)).
  lia.
Qed.

Lemma bcd_byte_nibbles f i :
  bcd_byte f i / 16 = dec_digit f (2 * i + 1) /\
  bcd_byte f i mod 16 = dec_digit f (2 * i).
Proof.
  unfold bcd_byte.
  pose proof (dec_digit_range f (2 * i + 1)). pose proof (dec_digit_range f (2 * i)).
  split; Z.to_euclidean_division_equations; lia.
Qed.

Lemma div_pow10_step f a b : 0 < a -> b = a * 10 -> f / b = f / a / 10.
Proof. intros Ha ->. rewrite Z.div_div by lia. reflexivity. Qed.

(** Ten decimal digits, read most significant first, make the number. *)
Lemma dec_digits_sum f : 0 <= f < 10 ^ 10 ->
  (((((((((0 * 10 + dec_digit f 9) * 10 + dec_digit f 8) * 10 + dec_digit f 7) * 10
        + dec_digit f 6) * 10 + dec_digit f 5) * 10 + dec_digit f 4) * 10
     + dec_digit f 3) * 10 + dec_digit f 2) * 10 + dec_digit f 1) * 10
  + dec_digit f 0 = f.
Proof.
  intros Hf. unfold dec_digit.
  pose proof (div_pow10_step f (10 ^ 0) (10 ^ 1) eq_refl eq_refl) as H0.
  pose proof (div_pow10_step f (10 ^ 1) (10 ^ 2) eq_refl eq_refl) as H1.
  pose proof (div_pow10_step f (10 ^ 2) (10 ^ 3) eq_refl eq_refl) as H2.
  pose proof (div_pow10_step f (10 ^ 3) (10 ^ 4) eq_refl eq_refl) as H3.
  pose proof (div_pow10_step f (10 ^ 4) (10 ^ 5) eq_refl eq_refl) as H4.
  pose proof (div_pow10_step f (10 ^ 5) (10 ^ 6) eq_refl eq_refl) as H5.
  pose proof (div_pow10_step f (10 ^ 6) (10 ^ 7) eq_refl eq_refl) as H6.
  pose proof (div_pow10_step f (10 ^ 7) (10 ^ 8) eq_refl eq_refl) as H7.
  pose proof (div_pow10_step f (10 ^ 8) (10 ^ 9) eq_refl eq_refl) as H8.
  assert (H9 : 0 <= f / 10 ^ 9 < 10)
    by (split; [apply Z.div_pos | apply Z.div_lt_upper_bound]; lia).
  rewrite Z.pow_0_r, Z.div_1_r in *.
  generalize dependent (f / 10 ^ 9). generalize dependent (f / 10 ^ 8).
  generalize dependent (f / 10 ^ 7). generalize dependent (f / 10 ^ 6).
  generalize dependent (f / 10 ^ 5). generalize dependent (f / 10 ^ 4).
  generalize dependent (f / 10 ^ 3). generalize dependent (f / 10 ^ 2).
  generalize dependent (f / 10 ^ 1). intros.
  Z.to_euclidean_division_equations; lia.
Qed.

Lemma dec_digit_hex f i : 0 <= dec_digit f i < 16.
Proof. pose proof (dec_digit_range f i). lia. Qed.

Lemma bytes_of_ints_bcd5 f : bytes_of_ints (bcd5 f) = Ret (bcd5 f).
Proof.
  unfold bytes_of_ints.
  replace (forallb _ (bcd5 f)) with true; [reflexivity|].
  symmetry. apply forallb_forall. intros x Hx.
  apply in_map_iff in Hx. destruct Hx as [i [<- _]].
  pose proof (bcd_byte_range f i).
  apply andb_true_iff. split; [apply Z.leb_le | apply Z.ltb_lt]; lia.
Qed.

(** The reversed, padded string of a non-negative frequency. *)
Lemma inverted_freq_nonneg f : 0 <= f ->
  rev (rjust (str f) 10 "0")
  = lsd_digits 10 f ++ repeat "0"%char (10 - length (lsd_digits 10 f)).
Proof.
  intros Hf. unfold str.
  replace (f <? 0) with false by (symmetry; apply Z.ltb_ge; lia).
  unfold rjust. rewrite digits_rev, length_rev, rev_app_distr, rev_involutive.
  now rewrite rev_repeat_same.
Qed.

Lemma getitem_inverted f (i : nat) : 0 <= f -> (i < 10)%nat ->
  getitem (rev (rjust (str f) 10 "0")) i
  = Ret (digit_char (dec_digit f (Z.of_nat i))).
Proof.
  intros Hf Hi. rewrite inverted_freq_nonneg by assumption.
  unfold getitem. rewrite lsd_index; [reflexivity | assumption | lia].
Qed.

(** When the first ten characters of the reversed string are the decimal
    digits 0 to 9 of [n], the encoder returns them packed. *)
Lemma encode_of_digits f n :
  (forall i : nat, (i < 10)%nat ->
     getitem (rev (rjust (str f) 10 "0")) i
     = Ret (digit_char (dec_digit n (Z.of_nat i)))) ->
  _encode_frequency f = Ret (bcd5 n).
Proof.
  intros Hget. unfold _encode_frequency.
  rewrite !Hget by lia. cbn [bind comprehension].
  rewrite !int_hex_pair by apply dec_digit_hex.
  cbn [bind]. apply (bytes_of_ints_bcd5 n).
Qed.

(** On a non-negative integer the encoder returns the packed decimal digits
    0 to 9, whatever the number of digits of the input. *)
Lemma encode_nonneg f : 0 <= f -> _encode_frequency f = Ret (bcd5 f).
Proof.
  intros Hf. apply encode_of_digits. intros i Hi. now apply getitem_inverted.
Qed.

(** A negative integer of ten digits or more has its sign beyond the ten
    characters the encoder reads: the digits of its absolute value go out. *)
Lemma encode_long_negative f : f <= - 10 ^ 9 -> _encode_frequency f = Ret (bcd5 (- f)).
Proof.
  intros Hf. apply encode_of_digits. intros i Hi.
  unfold str. replace (f <? 0) with true by (symmetry; apply Z.ltb_lt; lia).
  unfold rjust. rewrite digits_rev. cbn [length]. rewrite length_rev.
  rewrite rev_app_distr, rev_repeat_same. cbn [rev]. rewrite rev_involutive.
  pose proof (lsd_digits_length_gt 9 (- f)
                ltac:(change (Z.of_nat 9) with 9; lia)) as Hlen.
  unfold getitem. rewrite <- app_assoc.
  rewrite nth_error_app1 by lia.
  pose proof (lsd_index i (- f) 0 ltac:(lia) ltac:(lia)) as Hidx.
  cbn [repeat] in Hidx. rewrite app_nil_r in Hidx. now rewrite Hidx.
Qed.

(** Decoding the packed digits of [f] gives back [f] when it has at most
    ten digits. *)
Lemma decode_bcd5 f : 0 <= f < 10 ^ 10 -> _decode_frequency (bcd5 f) = Ret f.
Proof.
  intros Hf. unfold _decode_frequency, bcd5. cbn [map rev app concat].
  rewrite !format_02X_byte by apply bcd_byte_range.
  repeat match goal with
         | |- context [bcd_byte f ?i / 16] =>
             rewrite (proj1 (bcd_byte_nibbles f i)), (proj2 (bcd_byte_nibbles f i))
         end.
  cbn [app]. unfold int, strip_sign.
  destruct (digit_char_not_sign (dec_digit f (2 * 4 + 1)) (dec_digit_hex f _))
    as [-> ->].
  unfold strip_0x. change (10 =? 16) with false. cbn [andb parse_digits].
  rewrite !digit_value_char by apply dec_digit_hex.
  repeat match goal with
         | |- context [dec_digit f ?i <? 10] =>
             replace (dec_digit f i <? 10) with true
               by (symmetry; apply Z.ltb_lt, dec_digit_range)
         end.
  f_equal. apply (dec_digits_sum f Hf).
Qed.

(** The reversed, padded string of a negative frequency of at most nine
    digits: ten characters, one of them the sign. *)
Lemma inverted_freq_negative f : - 10 ^ 9 < f < 0 ->
  let inverted_freq := rev (rjust (str f) 10 "0") in
  length inverted_freq = 10%nat /\
  exists j, (j < 10)%nat /\ nth_error inverted_freq j = Some "-"%char.
Proof.
  intros Hf. cbv zeta. unfold str.
  replace (f <? 0) with true by (symmetry; apply Z.ltb_lt; lia).
  unfold rjust. rewrite digits_rev. cbn [length]. rewrite length_rev.
  rewrite rev_app_distr, rev_repeat_same. cbn [rev]. rewrite rev_involutive.
  pose proof (lsd_digits_length_le 8 (- f)
                ltac:(change (10 ^ Z.of_nat 9) with (10 ^ 9); lia)) as Hle.
  rewrite ?length_rev.
  set (lsd := lsd_digits 10 (- f)) in *. split.
  - rewrite !length_app, repeat_length. cbn [length]. rewrite ?length_rev. lia.
  - exists (length lsd). split; [lia|].
    rewrite nth_error_app1 by (rewrite length_app; cbn [length]; lia).
    rewrite nth_error_app2 by lia. now rewrite Nat.sub_diag.
Qed.

Ltac sign_pair_fails :=
  repeat match goal with
         | |- context [int (lit "0x" ++ ["-"%char; ?c]) 16] =>
             rewrite (int_hex_pair_minus_hi c)
         | |- context [int (lit "0x" ++ [?c; "-"%char]) 16] =>
             rewrite (int_hex_pair_minus_lo c)
         end;
  repeat match goal with
         | |- context [int ?s 16] =>
             destruct (int_ret_or_ValueError s 16) as [[? ->] | ->]
         end;
  reflexivity.

(** A negative frequency of at most nine digits puts its sign into one of
    the five digit pairs, and that pair is no hexadecimal literal. *)
Lemma encode_negative f : - 10 ^ 9 < f < 0 -> _encode_frequency f = Raise ValueError.
Proof.
  intros Hf. destruct (inverted_freq_negative f Hf) as [Hlen [j [Hj Hnth]]].
  unfold _encode_frequency.
  destruct (rev (rjust (str f) 10 "0"))
    as [|c0 [|c1 [|c2 [|c3 [|c4 [|c5 [|c6 [|c7 [|c8 [|c9 [|c10 t]]]]]]]]]]];
    try discriminate Hlen.
  cbn [getitem nth_error bind comprehension].
  do 10 (destruct j as [|j];
         [cbn [nth_error] in Hnth; injection Hnth as ->; sign_pair_fails|]).
  lia.
Qed.

Lemma result_Z_eqb_eq r1 r2 : result_Z_eqb r1 r2 = true -> r1 = r2.
Proof.
  destruct r1 as [x|[]], r2 as [y|[]]; try discriminate; [|reflexivity].
  simpl. intros H. apply Z.eqb_eq in H. congruence.
Qed.

Lemma int_format_02X b : 0 <= b < 256 ->
  int (format_02X b) 10 = packed_decimal b.
Proof.
  intros Hb. apply result_Z_eqb_eq.
  exact (range_forallb
           (fun b => result_Z_eqb (int (format_02X b) 10) (packed_decimal b))
           256 ltac:(vm_compute; reflexivity) b Hb).
Qed.

Lemma bytes_to_int_eq first_byte second_byte : 0 <= second_byte < 256 ->
  _bytes_to_int first_byte second_byte
  = (v <- packed_decimal second_byte ;; Ret (first_byte * 100 + v)).
Proof. intros Hb. unfold _bytes_to_int. now rewrite int_format_02X. Qed.

(** The range check of [send_operating_frequency] comes before the encoder
    and before any traffic on the port. *)
Lemma send_operating_frequency_guard self frequency_hz ser :
  frequency_hz < 10000 \/ 74000000 < frequency_hz ->
  send_operating_frequency self frequency_hz ser = (Raise ValueError, ser).
Proof.
  intros H. unfold send_operating_frequency.
  replace ((10000 <=? frequency_hz) && (frequency_hz <=? 74000000)) with false;
    [reflexivity|].
  symmetry. apply andb_false_iff.
  destruct H; [left | right]; apply Z.leb_gt; lia.
Qed.

End Codec.

(** ** The exchange engine *)

Module Engine.
Import Py.

Lemma bytes_eqb_eq a : forall b, bytes_eqb a b = true <-> a = b.
Proof.
  induction a as [|x a IH]; intros [|y b]; simpl; split; try congruence; auto.
  - intros H. apply andb_true_iff in H. destruct H as [H1 H2].
    apply Z.eqb_eq in H1. apply IH in H2. congruence.
  - intros H. injection H as -> ->. rewrite Z.eqb_refl. simpl. now apply IH.
Qed.

Lemma bytes_eqb_neq a b : bytes_eqb a b = false <-> a <> b.
Proof.
  pose proof (bytes_eqb_eq a b) as H. destruct (bytes_eqb a b); split; intros;
    try congruence.
  - exfalso. apply H0. now apply H.
  - intros E. apply H in E. discriminate.
Qed.

Lemma command_string_length self command data preamble :
  (3 <= length (command_string self command data preamble))%nat.
Proof. unfold command_string. rewrite !length_app. simpl. lia. Qed.

Lemma valid_command_check command :
  valid_command command ->
  negb (existsb (Z.eqb (len command)) [1; 2; 3; 4]) = false.
Proof.
  unfold valid_command, len. intros H. apply negb_false_iff. simpl.
  destruct (length command) as [|[|[|[|[|n]]]]] eqn:E; try lia; reflexivity.
Qed.

(** *** One pass through the loop body *)

(** The three bytes the body reads from a frame that has bytes 2 and 3. *)
Lemma frame_fields r c t :
  nth_error r 2 = Some c -> nth_error r 3 = Some t ->
(len r >? 2) = true /\
  exists code, getitem r (Z.to_nat (len r - 2)) = Ret code /\
               status_byte r = Some code.
Proof.
  intros H2 H3.
  assert (Hlen : (3 < length r)%nat) by (apply nth_error_Some; congruence).
  split.
  - unfold len. rewrite Z.gtb_ltb. apply Z.ltb_lt. lia.
  - unfold getitem, status_byte, len.
    replace (Z.to_nat (Z.of_nat (length r) - 2)) with (length r - 2)%nat by lia.
    destruct (nth_error r (length r - 2)) as [code|] eqn:E; [eauto|].
    apply nth_error_None in E. lia.
Qed.

Section Body.
Variables (self : Device) (cs : bytes).
Hypothesis cs_long : (3 <= length cs)%nat.

Lemma read_silence_not_echo r : is_silence r -> bytes_eqb r cs = false.
Proof.
  unfold is_silence. intros H. apply bytes_eqb_neq. intros ->. lia.
Qed.

Lemma body_echo k l ser rest :
  incoming ser = cs :: rest ->
  loop_body self cs k l ser
  = (Next {| i := Some (k - 1); reply := cs; valid_reply := valid_reply l |},
     {| written := written ser; incoming := rest |}).
Proof.
  intros H. unfold loop_body, read_until. rewrite H.
  now rewrite (proj2 (bytes_eqb_eq cs cs) eq_refl).
Qed.

Lemma body_silence k l ser r rest :
  incoming ser = r :: rest -> is_silence r ->
  loop_body self cs k l ser
  = (Next {| i := Some k; reply := r; valid_reply := valid_reply l |},
     {| written := written ser; incoming := rest |}).
Proof.
  intros H Hr. unfold loop_body, read_until. rewrite H.
  rewrite (read_silence_not_echo r Hr).
  unfold is_silence in Hr. unfold len.
  replace (Z.of_nat (length r) >? 2) with false; [reflexivity|].
  symmetry. rewrite Z.gtb_ltb. apply Z.ltb_ge. lia.
Qed.

Lemma body_timeout k l ser :
  incoming ser = [] ->
  loop_body self cs k l ser
  = (Next {| i := Some k; reply := []; valid_reply := valid_reply l |}, ser).
Proof.
  intros H. unfold loop_body, read_until. rewrite H.
  rewrite (read_silence_not_echo []) by (unfold is_silence; simpl; lia).
  reflexivity.
Qed.

Lemma body_foreign k l ser r rest :
  incoming ser = r :: rest -> r <> cs -> is_foreign self r ->
  loop_body self cs k l ser
  = (Next {| i := Some (k - 1); reply := r; valid_reply := valid_reply l |},
     {| written := written ser; incoming := rest |}).
Proof.
  intros H Hne (c & t & H2 & H3 & Hdiff).
  unfold loop_body, read_until. rewrite H.
  rewrite (proj2 (bytes_eqb_neq r cs) Hne).
  destruct (frame_fields r c t H2 H3) as [-> [code [-> _]]].
  unfold getitem. rewrite H2, H3.
  replace (negb (bytes_eqb [c] (controller_address self))
           || negb (bytes_eqb [t] (transceiver_address self))) with true;
    [reflexivity|].
  symmetry. apply orb_true_iff.
  destruct Hdiff as [Hd|Hd]; [left|right]; apply negb_true_iff, bytes_eqb_neq;
    congruence.
Qed.

Lemma body_addressed k l ser r rest code :
  incoming ser = r :: rest -> r <> cs -> addressed_to self r ->
  status_byte r = Some code ->
  loop_body self cs k l ser
  = (if code =? 0xfa then Raised (CivCommandException [code])
     else Break {| i := Some k; reply := r; valid_reply := true |},
     {| written := written ser; incoming := rest |}).
Proof.
  intros H Hne (c & t & H2 & H3 & Hc & Ht) Hcode.
  unfold loop_body, read_until. rewrite H.
  rewrite (proj2 (bytes_eqb_neq r cs) Hne).
  destruct (frame_fields r c t H2 H3) as [-> [code' [-> Hcode']]].
  assert (code' = code) by congruence. subst code'.
  unfold getitem. rewrite H2, H3, Hc, Ht.
  rewrite !(proj2 (bytes_eqb_eq _ _) eq_refl). simpl.
  rewrite andb_true_r. destruct (code =? 250); reflexivity.
Qed.

(** A read of exactly three bytes passes the length test and has no byte 3:
    the body raises [IndexError]. *)
Lemma body_three_bytes k l ser r rest :
  incoming ser = r :: rest -> r <> cs -> length r = 3%nat ->
  loop_body self cs k l ser
  = (Raised IndexError, {| written := written ser; incoming := rest |}).
Proof.
  intros H Hne Hlen. unfold loop_body, read_until. rewrite H.
  rewrite (proj2 (bytes_eqb_neq r cs) Hne).
  destruct r as [|b0 [|b1 [|b2 [|b3 r]]]]; try discriminate Hlen. reflexivity.
Qed.

(** Whatever kind of read is passed over, the pass ends in [Next], takes the
    read from the script and leaves [valid_reply] alone. *)
Lemma body_passed_over k l ser r rest :
  incoming ser = r :: rest -> passed_over self cs r ->
  exists l', loop_body self cs k l ser
             = (Next l', {| written := written ser; incoming := rest |})
             /\ valid_reply l' = valid_reply l
             /\ (i l' = Some k \/ i l' = Some (k - 1)).
Proof.
  intros H [He | [Hs | Hf]].
  - red in He. subst r. rewrite (body_echo k l ser rest H). eexists. split; [reflexivity|].
    simpl. auto.
  - rewrite (body_silence k l ser r rest H Hs). eexists. split; [reflexivity|].
    simpl. auto.
  - destruct (list_eq_dec Z.eq_dec r cs) as [->|Hne].
    + rewrite (body_echo k l ser rest H). eexists. split; [reflexivity|]. simpl. auto.
    + rewrite (body_foreign k l ser r rest H Hne Hf). eexists. split; [reflexivity|].
      simpl. auto.
Qed.

(** *** The [for] statement *)

(** Reads that are passed over use up one element of the range each. *)
Lemma for_range_passed_over pre : forall idx rest l w tail,
  length idx = length pre ->
  Forall (passed_over self cs) pre ->
  exists l',
    for_range self cs (idx ++ rest) l {| written := w; incoming := pre ++ tail |}
    = for_range self cs rest l' {| written := w; incoming := tail |}
    /\ valid_reply l' = valid_reply l
    /\ (idx = [] -> l' = l)
    /\ (idx <> [] -> i l' = Some (last idx 0) \/ i l' = Some (last idx 0 - 1)).
Proof.
  induction pre as [|r pre IH]; intros idx rest l w tail Hlen Hall.
  - destruct idx; [|discriminate]. exists l. simpl. repeat split; congruence.
  - destruct idx as [|k idx]; [discriminate|]. injection Hlen as Hlen.
    inversion Hall as [|? ? Hr Hpre]; subst.
    destruct (body_passed_over k l {| written := w; incoming := r :: pre ++ tail |}
                r (pre ++ tail) eq_refl Hr) as (l1 & Hbody & Hv1 & Hi1).
    destruct (IH idx rest l1 w tail Hlen Hpre) as (l2 & Hfor & Hv2 & Hnil & Hi2).
    exists l2. cbn [app for_range]. rewrite Hbody. cbn [written]. rewrite Hfor.
    repeat split; [congruence | discriminate |]. intros _.
    destruct idx as [|k' idx'].
    + rewrite (Hnil eq_refl). exact Hi1.
    + apply Hi2. discriminate.
Qed.

(** Silent reads, from the script or past its end, use up the whole range
    and leave [i] at its last element. *)
Lemma for_range_silence idx : forall l w inc,
  Forall is_silence (firstn (length idx) inc) ->
  exists l',
    for_range self cs idx l {| written := w; incoming := inc |}
    = (Next l', {| written := w; incoming := skipn (length idx) inc |})
    /\ valid_reply l' = valid_reply l
    /\ i l' = match idx with [] => i l | _ => Some (last idx 0) end.
Proof.
  induction idx as [|k idx IH]; intros l w inc Hall.
  - exists l. simpl. auto.
  - cbn [for_range length]. destruct inc as [|r inc].
    + rewrite (body_timeout k l {| written := w; incoming := [] |} eq_refl).
      destruct (IH {| i := Some k; reply := []; valid_reply := valid_reply l |} w []
                   ltac:(rewrite firstn_nil; constructor)) as (l' & Hfor & Hv & Hi).
      exists l'. rewrite Hfor, skipn_nil. repeat split; auto.
      rewrite Hi. destruct idx; reflexivity.
    + cbn [firstn] in Hall. inversion Hall as [|? ? Hr Hinc]; subst.
      rewrite (body_silence k l {| written := w; incoming := r :: inc |} r inc
                 eq_refl Hr). cbn [written].
      destruct (IH {| i := Some k; reply := r; valid_reply := valid_reply l |} w inc
                   Hinc) as (l' & Hfor & Hv & Hi).
      exists l'. rewrite Hfor. cbn [skipn]. repeat split; auto.
      rewrite Hi. destruct idx; reflexivity.
Qed.

End Body.

(** A reply the loop accepts: not the echo, addressed to this device, and
    its status byte is not the negative acknowledge. *)
Lemma body_cases self cs k l ser :
  match fst (loop_body self cs k l ser) with
  | Next l' => valid_reply l' = valid_reply l
  | Break l' => valid_reply l' = true /\ accepted self cs (reply l')
  | Raised _ => True
  end.
Proof.
  unfold loop_body. destruct (read_until ser) as [r ser1].
  destruct (bytes_eqb r cs) eqn:Eecho; [reflexivity|].
  destruct (len r >? 2) eqn:Elen; [|reflexivity].
  unfold getitem.
  destruct (nth_error r 2) as [b2|] eqn:E2; [|exact I].
  destruct (nth_error r 3) as [b3|] eqn:E3; [|exact I].
  destruct (nth_error r (Z.to_nat (len r - 2))) as [bc|] eqn:Ec; [|exact I].
  destruct (negb (bytes_eqb [b2] (controller_address self))
            || negb (bytes_eqb [b3] (transceiver_address self))) eqn:Eaddr;
    [reflexivity|].
  destruct (bytes_eqb [bc] [250]) eqn:Eng; [exact I|].
  cbn [fst valid_reply reply]. split; [reflexivity|].
  apply orb_false_iff in Eaddr. destruct Eaddr as [Ea1 Ea2].
  apply negb_false_iff in Ea1, Ea2. apply bytes_eqb_eq in Ea1, Ea2.
  apply bytes_eqb_neq in Eecho, Eng.
  unfold accepted. split; [exact Eecho|]. split.
  - exists b2, b3. auto.
  - exists bc. split; [|congruence].
    unfold status_byte. unfold len in Ec.
    replace (length r - 2)%nat with (Z.to_nat (Z.of_nat (length r) - 2)) by lia.
    exact Ec.
Qed.

Lemma for_range_cases self cs idx : forall l ser,
  match fst (for_range self cs idx l ser) with
  | Next l' => valid_reply l' = valid_reply l
  | Break l' => valid_reply l' = true /\ accepted self cs (reply l')
  | Raised _ => True
  end.
Proof.
  induction idx as [|k idx IH]; intros l ser; [reflexivity|].
  cbn [for_range]. pose proof (body_cases self cs k l ser) as Hb.
  destruct (loop_body self cs k l ser) as [[l1|l1|e] ser1]; cbn [fst] in Hb |- *;
    auto.
  rewrite <- Hb. apply IH.
Qed.

Lemma range_split n (m : nat) : (m < Z.to_nat n)%nat ->
  range n = map Z.of_nat (seq 0 m)
            ++ Z.of_nat m :: map Z.of_nat (seq (S m) (Z.to_nat n - S m)).
Proof.
  intros Hm. unfold range.
  replace (Z.to_nat n) with (m + S (Z.to_nat n - S m))%nat at 1 by lia.
  rewrite seq_app, map_app. reflexivity.
Qed.

Lemma range_last n : 1 <= n -> range n <> [] /\ last (range n) 0 = n - 1.
Proof.
  intros Hn. unfold range.
  replace (Z.to_nat n) with (S (Z.to_nat (n - 1))) by lia.
  rewrite seq_S, map_app. cbn [map Nat.add]. split.
  - intros E. apply app_eq_nil in E. destruct E; discriminate.
  - rewrite last_last. lia.
Qed.

Section Calls.
Variables (self : Device) (command data preamble : bytes) (ser : Serial).
Hypothesis command_ok : valid_command command.
Local Abbreviation cs := (command_string self command data preamble).

(** The call after the length check and the write. *)
Lemma send_command_eq :
  _send_command self command data preamble ser
  = match for_range self cs (range (_read_attempts self))
            {| i := None; reply := []; valid_reply := false |}
            {| written := written ser ++ [cs]; incoming := incoming ser |} with
    | (Raised e, ser') => (Raise e, ser')
    | (Next l, ser') | (Break l, ser') =>
        if negb (valid_reply l) then
          match i l with
          | Some i => (Raise (CivTimeoutException (i + 1)), ser')
          | None => (Raise UnboundLocalError, ser')
          end
        else (Ret (reply l), ser')
    end.
Proof.
  unfold _send_command. rewrite (valid_command_check command command_ok).
  reflexivity.
Qed.

(** Only an accepted reply is ever returned. *)
Lemma returned_reply_accepted r ser' :
  _send_command self command data preamble ser = (Ret r, ser') ->
  accepted self cs r.
Proof.
  rewrite send_command_eq.
  pose proof (for_range_cases self cs (range (_read_attempts self))
                {| i := None; reply := []; valid_reply := false |}
                {| written := written ser ++ [cs]; incoming := incoming ser |}) as H.
  destruct (for_range _ _ _ _ _) as [[l|l|e] ser1]; cbn [fst] in H.
  - cbn [valid_reply] in H. rewrite H. cbn [negb].
    destruct (i l); discriminate.
  - destruct H as [Hv Hacc]. rewrite Hv. cbn [negb]. congruence.
  - discriminate.
Qed.

(** Reads that are passed over (echoes and foreign frames as much as
    silence) each use up one pass: when as many of them come in as the
    budget has passes, the call times out and reads nothing further. *)
Lemma passed_over_reads_exhaust_budget pre tail :
  incoming ser = pre ++ tail ->
  Forall (passed_over self cs) pre ->
  1 <= _read_attempts self ->
  Z.of_nat (length pre) = _read_attempts self ->
  exists n,
    _send_command self command data preamble ser
    = (Raise (CivTimeoutException n), after_reads cs (length pre) ser)
    /\ (n = _read_attempts self \/ n = _read_attempts self - 1).
Proof.
  intros Hinc Hall Hpos Hlen. rewrite send_command_eq, Hinc.
  destruct (range_last (_read_attempts self) Hpos) as [Hne Hlast].
  destruct (for_range_passed_over self cs (command_string_length _ _ _ _) pre
              (range (_read_attempts self)) []
              {| i := None; reply := []; valid_reply := false |}
              (written ser ++ [cs]) tail) as (l' & Hfor & Hv & _ & Hi).
  { unfold range. rewrite length_map, length_seq. lia. }
  { exact Hall. }
  rewrite app_nil_r in Hfor. rewrite Hfor. cbn [for_range].
  cbn [valid_reply] in Hv. rewrite Hv. cbn [negb].
  unfold after_reads. rewrite Hinc, skipn_app, skipn_all, Nat.sub_diag. cbn [app skipn].
  specialize (Hi Hne). rewrite Hlast in Hi.
  destruct Hi as [-> | ->]; eexists; (split; [reflexivity|]); lia.
Qed.

(** Silence on every read, with a budget of at least one pass. *)
Lemma silence_times_out :
  1 <= _read_attempts self ->
  Forall is_silence (firstn (Z.to_nat (_read_attempts self)) (incoming ser)) ->
  _send_command self command data preamble ser
  = (Raise (CivTimeoutException (_read_attempts self)),
     after_reads cs (Z.to_nat (_read_attempts self)) ser).
Proof.
  intros Hpos Hall. rewrite send_command_eq.
  destruct (range_last (_read_attempts self) Hpos) as [Hne Hlast].
  assert (Hlen : length (range (_read_attempts self)) = Z.to_nat (_read_attempts self))
    by (unfold range; now rewrite length_map, length_seq).
  destruct (for_range_silence self cs (command_string_length _ _ _ _)
              (range (_read_attempts self))
              {| i := None; reply := []; valid_reply := false |}
              (written ser ++ [cs]) (incoming ser)) as (l' & Hfor & Hv & Hi).
  { now rewrite Hlen. }
  rewrite Hfor. cbn [valid_reply] in Hv. rewrite Hv. cbn [negb].
  destruct (range (_read_attempts self)) eqn:E; [congruence|].
  rewrite Hi, Hlast. unfold after_reads. rewrite <- Hlen.
  do 2 f_equal. f_equal. lia.
Qed.

(** With no pass at all the loop never binds [i], and building the message
    of the timeout exception fails. *)
Lemma empty_budget_unbound :
  _read_attempts self <= 0 ->
  _send_command self command data preamble ser
  = (Raise UnboundLocalError, after_reads cs 0 ser).
Proof.
  intros Hle. rewrite send_command_eq. unfold range.
  replace (Z.to_nat (_read_attempts self)) with 0%nat by lia. reflexivity.
Qed.

(** The first reply addressed to this device decides the call: negative
    acknowledge raises, anything else is returned. *)
Lemma first_addressed_reply_decides pre r rest code :
  incoming ser = pre ++ r :: rest ->
  Forall (passed_over self cs) pre ->
  Z.of_nat (length pre) < _read_attempts self ->
  r <> cs -> addressed_to self r -> status_byte r = Some code ->
  _send_command self command data preamble ser
  = (if code =? 0xfa then Raise (CivCommandException [code]) else Ret r,
     after_reads cs (S (length pre)) ser).
Proof.
  intros Hinc Hall Hlen Hne Haddr Hcode. rewrite send_command_eq, Hinc.
  rewrite (range_split (_read_attempts self) (length pre)) by lia.
  destruct (for_range_passed_over self cs (command_string_length _ _ _ _) pre
              (map Z.of_nat (seq 0 (length pre)))
              (Z.of_nat (length pre)
               :: map Z.of_nat (seq (S (length pre))
                                    (Z.to_nat (_read_attempts self) - S (length pre))))
              {| i := None; reply := []; valid_reply := false |}
              (written ser ++ [cs]) (r :: rest)) as (l' & Hfor & _).
  { now rewrite length_map, length_seq. }
  { exact Hall. }
  rewrite Hfor. cbn [for_range].
  rewrite (body_addressed self cs _ _
             {| written := written ser ++ [cs]; incoming := r :: rest |}
             r rest code eq_refl Hne Haddr Hcode).
  unfold after_reads. rewrite Hinc.
  replace (skipn (S (length pre)) (pre ++ r :: rest)) with rest.
  - destruct (code =? 250); reflexivity.
  - change (S (length pre)) with (1 + length pre)%nat.
    rewrite <- skipn_skipn, skipn_app, skipn_all, Nat.sub_diag. reflexivity.
Qed.

End Calls.

End Engine.

(** ** Piecewise-linear interpolation *)

Module Interpolation.
Import Py.

(** A loop whose body never raises returns at the first element on which the
    body returns. *)
Lemma for_return_spec {A B} (body : A -> result (option B)) (f : A -> option B) l :
  (forall x, In x l -> body x = Ret (f x)) ->
  exists o, for_return body l = Ret o /\
            match o with
            | Some v => exists x, In x l /\ f x = Some v
            | None => forall x, In x l -> f x = None
            end.
Proof.
  induction l as [|a l IH]; intros Hbody.
  - exists None. split; [reflexivity|]. intros x [].
  - cbn [for_return]. rewrite (Hbody a (or_introl eq_refl)). cbn [bind].
    destruct (f a) as [v|] eqn:E.
    + exists (Some v). split; [reflexivity|]. exists a. split; [now left | exact E].
    + destruct IH as [o [Hfor Ho]]; [intros x Hx; apply Hbody; now right|].
      exists o. split; [exact Hfor|]. destruct o as [v|].
      * destruct Ho as [x [Hx Hfx]]. exists x. split; [now right | exact Hfx].
      * intros x [<- | Hx]; auto.
Qed.

Section Loops.
Variables (raw_value : Z) (points : list (Z * Q)).

(** The first loop: a breakpoint whose raw value is [raw_value]. *)
Lemma exact_loop :
  exists o,
    for_return (fun point : Z * Q =>
                  if raw_value =? fst point then Ret (Some (snd point)) else Ret None)
               points = Ret o /\
    match o with
    | Some v => exists p, In p points /\ fst p = raw_value /\ snd p = v
    | None => forall p, In p points -> fst p <> raw_value
    end.
Proof.
  destruct (for_return_spec
              (fun point : Z * Q =>
                 if raw_value =? fst point then Ret (Some (snd point)) else Ret None)
              (fun point => if raw_value =? fst point then Some (snd point) else None)
              points) as [o [Hfor Ho]].
  { intros x _. destruct (raw_value =? fst x); reflexivity. }
  exists o. split; [exact Hfor|]. destruct o as [v|].
  - destruct Ho as [p [Hp Hf]]. exists p. split; [exact Hp|].
    destruct (raw_value =? fst p) eqn:E; [|discriminate].
    apply Z.eqb_eq in E. split; congruence.
  - intros p Hp. specialize (Ho p Hp).
    destruct (raw_value =? fst p) eqn:E; [discriminate|].
    apply Z.eqb_neq in E. congruence.
Qed.

(** The second loop: two neighbours with [raw_value] strictly between. *)
Lemma between_loop :
  exists o,
    for_return (fun i : Z =>
                  p0 <- getitem points (Z.to_nat i) ;;
                  p1 <- getitem points (Z.to_nat (i + 1)) ;;
                  if (fst p0 <? raw_value) && (raw_value <? fst p1)
                  then Ret (Some (interpolation raw_value p0 p1))
                  else Ret None)
               (range (len points - 1)) = Ret o /\
    match o with
    | Some v => exists (i : nat) p0 p1,
        nth_error points i = Some p0 /\ nth_error points (S i) = Some p1 /\
        fst p0 < raw_value < fst p1 /\ v = interpolation raw_value p0 p1
    | None => forall (i : nat) p0 p1,
        nth_error points i = Some p0 -> nth_error points (S i) = Some p1 ->
        ~ fst p0 < raw_value < fst p1
    end.
Proof.
  set (f := fun i : Z =>
              match nth_error points (Z.to_nat i), nth_error points (Z.to_nat (i + 1)) with
              | Some p0, Some p1 =>
                  if (fst p0 <? raw_value) && (raw_value <? fst p1)
                  then Some (interpolation raw_value p0 p1) else None
              | _, _ => None
              end).
  assert (Hin : forall x, In x (range (len points - 1)) ->
                          exists k : nat, x = Z.of_nat k /\ (S k < length points)%nat).
  { intros x Hx. unfold range in Hx. apply in_map_iff in Hx.
    destruct Hx as [k [<- Hk]]. apply in_seq in Hk. exists k. unfold len in Hk.
    split; [reflexivity | lia]. }
  destruct (for_return_spec
              (fun i : Z =>
                 p0 <- getitem points (Z.to_nat i) ;;
                 p1 <- getitem points (Z.to_nat (i + 1)) ;;
                 if (fst p0 <? raw_value) && (raw_value <? fst p1)
                 then Ret (Some (interpolation raw_value p0 p1))
                 else Ret None)
              f (range (len points - 1))) as [o [Hfor Ho]].
  { intros x Hx. destruct (Hin x Hx) as [k [-> Hk]]. unfold f, getitem.
    replace (Z.to_nat (Z.of_nat k + 1)) with (S k) by lia. rewrite Nat2Z.id.
    destruct (nth_error points k) as [p0|] eqn:E0;
      [|apply nth_error_None in E0; lia].
    destruct (nth_error points (S k)) as [p1|] eqn:E1;
      [|apply nth_error_None in E1; lia].
    cbn [bind]. destruct ((fst p0 <? raw_value) && (raw_value <? fst p1)); reflexivity. }
  exists o. split; [exact Hfor|]. destruct o as [v|].
  - destruct Ho as [x [Hx Hf]]. destruct (Hin x Hx) as [k [-> Hk]]. unfold f in Hf.
    replace (Z.to_nat (Z.of_nat k + 1)) with (S k) in Hf by lia. rewrite Nat2Z.id in Hf.
    destruct (nth_error points k) as [p0|] eqn:E0; [|discriminate].
    destruct (nth_error points (S k)) as [p1|] eqn:E1; [|discriminate].
    destruct ((fst p0 <? raw_value) && (raw_value <? fst p1)) eqn:Ec; [|discriminate].
    apply andb_true_iff in Ec. destruct Ec as [Ha Hb].
    apply Z.ltb_lt in Ha, Hb. exists k, p0, p1. repeat split; auto; congruence.
  - intros k p0 p1 E0 E1 [Ha Hb].
    assert (Hk : (S k < length points)%nat) by (apply nth_error_Some; congruence).
    assert (Hx : In (Z.of_nat k) (range (len points - 1))).
    { unfold range. apply in_map, in_seq. unfold len. lia. }
    specialize (Ho _ Hx). unfold f in Ho.
    replace (Z.to_nat (Z.of_nat k + 1)) with (S k) in Ho by lia. rewrite Nat2Z.id in Ho.
    rewrite E0, E1 in Ho.
    replace ((fst p0 <? raw_value) && (raw_value <? fst p1)) with true in Ho;
      [discriminate|].
    symmetry. apply andb_true_iff. split; apply Z.ltb_lt; assumption.
Qed.

End Loops.

(** The returned expression is the point of the line through the two
    breakpoints. *)
Lemma interpolation_on_line raw p0 p1 :
  fst p0 < fst p1 -> on_line p0 p1 raw (interpolation raw p0 p1).
Proof.
  destruct p0 as [x0 y0], p1 as [x1 y1]. unfold on_line, interpolation.
  cbn [fst snd]. intros H. field. intros E.
  apply (inject_Z_injective (x1 - x0) 0) in E. lia.
Qed.

(** *** Ascending breakpoints *)

Lemma raw_lt_trans : Relation_Definitions.transitive _ raw_lt.
Proof. unfold raw_lt. intros x y z. lia. Qed.

Lemma sorted_nth points : Sorted raw_lt points ->
  forall (i j : nat) p q, (i < j)%nat ->
  nth_error points i = Some p -> nth_error points j = Some q -> fst p < fst q.
Proof.
  intros Hs. apply (Sorted_StronglySorted raw_lt_trans) in Hs.
  induction Hs as [|a l Hl IH Ha]; intros i j p q Hij Hi Hj.
  - destruct i; discriminate.
  - destruct j as [|j]; [lia|]. cbn [nth_error] in Hj. destruct i as [|i].
    + cbn [nth_error] in Hi. injection Hi as <-.
      rewrite Forall_forall in Ha. apply Ha. eapply nth_error_In; eassumption.
    + cbn [nth_error] in Hi. apply (IH i j); auto. lia.
Qed.

Lemma sorted_nth_le points : Sorted raw_lt points ->
  forall (i j : nat) p q, (i <= j)%nat ->
  nth_error points i = Some p -> nth_error points j = Some q -> fst p <= fst q.
Proof.
  intros Hs i j p q Hij Hi Hj. destruct (Nat.eq_dec i j) as [->|Hne].
  - assert (p = q) by congruence. subst. lia.
  - pose proof (sorted_nth points Hs i j p q ltac:(lia) Hi Hj). lia.
Qed.

Lemma nth_error_last {A} (a : A) l d :
  nth_error (a :: l) (length l) = Some (last (a :: l) d).
Proof.
  revert a. induction l as [|b l IH]; intros a; [reflexivity|].
  cbn [length nth_error]. rewrite (IH b). reflexivity.
Qed.

Lemma getitem_last_cons {A} (a : A) l d :
  getitem_last (a :: l) = Ret (last (a :: l) d).
Proof.
  unfold getitem_last, getitem. cbn [length].
  replace (S (length l) - 1)%nat with (length l) by lia.
  now rewrite (nth_error_last a l d).
Qed.

(** Between a breakpoint below [raw] and a later one above it, with none
    equal to it, two neighbours have [raw] strictly between them.  No order
    of the breakpoints is needed for this. *)
Lemma crossing_exists raw l : forall (a d : Z * Q),
  (forall p, In p (a :: l) -> fst p <> raw) ->
  fst a < raw -> raw < fst (last (a :: l) d) ->
  exists (i : nat) p0 p1,
    nth_error (a :: l) i = Some p0 /\ nth_error (a :: l) (S i) = Some p1 /\
    fst p0 < raw < fst p1.
Proof.
  induction l as [|b l IH]; intros a d Hne Ha Hlast.
  - cbn [last] in Hlast. lia.
  - destruct (Z_lt_le_dec raw (fst b)) as [Hb|Hb].
    + exists 0%nat, a, b. cbn [nth_error]. auto.
    + assert (fst b <> raw) by (apply Hne; right; left; reflexivity).
      destruct (IH b d) as (i & p0 & p1 & H0 & H1 & Hbetween).
      * intros p Hp. apply Hne. now right.
      * lia.
      * exact Hlast.
      * exists (S i), p0, p1. cbn [nth_error]. auto.
Qed.

(** *** The four ways out *)

Section Paths.
Variables (raw_value : Z) (points : list (Z * Q)).
Hypothesis ascending : Sorted raw_lt points.

Lemma no_match_outside (i : nat) p0 p1 :
  nth_error points i = Some p0 -> nth_error points (S i) = Some p1 ->
  fst p0 < raw_value < fst p1 ->
  forall p, In p points -> fst p <> raw_value.
Proof.
  intros H0 H1 Hb p Hp. apply In_nth_error in Hp. destruct Hp as [j Hj].
  destruct (Nat.le_gt_cases j i) as [Hle|Hgt].
  - pose proof (sorted_nth_le points ascending j i p p0 Hle Hj H0). lia.
  - pose proof (sorted_nth_le points ascending (S i) j p1 p ltac:(lia) H1 Hj). lia.
Qed.

Lemma at_breakpoint p :
  In p points -> fst p = raw_value ->
  _linear_interpolate raw_value points = Ret (AtBreakpoint, snd p).
Proof.
  intros Hp Hraw. unfold _linear_interpolate.
  destruct (exact_loop raw_value points) as [o [-> Ho]]. cbn [bind].
  destruct o as [v|]; [|exfalso; exact (Ho p Hp Hraw)].
  destruct Ho as [q [Hq [Hfq <-]]]. do 2 f_equal.
  apply In_nth_error in Hp, Hq. destruct Hp as [i Hi], Hq as [j Hj].
  destruct (Nat.lt_trichotomy i j) as [Hlt | [-> | Hgt]].
  - pose proof (sorted_nth points ascending i j p q Hlt Hi Hj). lia.
  - congruence.
  - pose proof (sorted_nth points ascending j i q p Hgt Hj Hi). lia.
Qed.

Lemma between_breakpoints (i : nat) p0 p1 :
  nth_error points i = Some p0 -> nth_error points (S i) = Some p1 ->
  fst p0 < raw_value < fst p1 ->
  _linear_interpolate raw_value points
  = Ret (BetweenBreakpoints, interpolation raw_value p0 p1).
Proof.
  intros H0 H1 Hb. unfold _linear_interpolate.
  destruct (exact_loop raw_value points) as [o [-> Ho]]. cbn [bind].
  destruct o as [v|].
  { destruct Ho as [q [Hq [Hfq _]]].
    exfalso. exact (no_match_outside i p0 p1 H0 H1 Hb q Hq Hfq). }
  destruct (between_loop raw_value points) as [o [-> Hbet]]. cbn [bind].
  destruct o as [v|]; [|exfalso; exact (Hbet i p0 p1 H0 H1 Hb)].
  destruct Hbet as (j & q0 & q1 & Hj0 & Hj1 & Hjb & ->). do 3 f_equal.
  - destruct (Nat.lt_trichotomy i j) as [Hlt | [<- | Hgt]]; [| congruence |].
    + pose proof (sorted_nth_le points ascending (S i) j p1 q0 ltac:(lia) H1 Hj0). lia.
    + pose proof (sorted_nth_le points ascending (S j) i q1 p0 ltac:(lia) Hj1 H0). lia.
  - destruct (Nat.lt_trichotomy i j) as [Hlt | [<- | Hgt]]; [| congruence |].
    + pose proof (sorted_nth_le points ascending (S i) j p1 q0 ltac:(lia) H1 Hj0). lia.
    + pose proof (sorted_nth_le points ascending (S j) i q1 p0 ltac:(lia) Hj1 H0). lia.
Qed.

Lemma below_first first rest :
  points = first :: rest -> raw_value < fst first ->
  _linear_interpolate raw_value points = Ret (BelowFirst, snd first).
Proof.
  intros Hpts Hlt.
  assert (Hmin : forall (j : nat) q, nth_error points j = Some q -> fst first <= fst q).
  { intros j q Hj. apply (sorted_nth_le points ascending 0 j first q); auto; [lia|].
    now rewrite Hpts. }
  unfold _linear_interpolate.
  destruct (exact_loop raw_value points) as [o [-> Ho]]. cbn [bind].
  destruct o as [v|].
  { destruct Ho as [q [Hq [Hfq _]]]. apply In_nth_error in Hq. destruct Hq as [j Hj].
    pose proof (Hmin j q Hj). lia. }
  destruct (between_loop raw_value points) as [o [-> Hbet]]. cbn [bind].
  destruct o as [v|].
  { destruct Hbet as (j & q0 & q1 & Hj0 & _ & Hjb & _). pose proof (Hmin j q0 Hj0). lia. }
  rewrite Hpts. cbn [getitem nth_error bind].
  replace (raw_value <? fst first) with true by (symmetry; apply Z.ltb_lt; lia).
  reflexivity.
Qed.

Lemma above_last first rest d :
  points = first :: rest -> raw_value > fst (last points d) ->
  _linear_interpolate raw_value points = Ret (AboveLast, snd (last points d)).
Proof.
  intros Hpts Hgt.
  assert (Hlast : nth_error points (length rest) = Some (last points d))
    by (rewrite Hpts; apply nth_error_last).
  assert (Hmax : forall (j : nat) q, nth_error points j = Some q ->
                                     fst q <= fst (last points d)).
  { intros j q Hj. apply (sorted_nth_le points ascending j (length rest) q _); auto.
    assert (j < length points)%nat by (apply nth_error_Some; congruence).
    rewrite Hpts in H. cbn [length] in H. lia. }
  unfold _linear_interpolate.
  destruct (exact_loop raw_value points) as [o [-> Ho]]. cbn [bind].
  destruct o as [v|].
  { destruct Ho as [q [Hq [Hfq _]]]. apply In_nth_error in Hq. destruct Hq as [j Hj].
    pose proof (Hmax j q Hj). lia. }
  destruct (between_loop raw_value points) as [o [-> Hbet]]. cbn [bind].
  destruct o as [v|].
  { destruct Hbet as (j & q0 & q1 & _ & Hj1 & Hjb & _). pose proof (Hmax _ q1 Hj1). lia. }
  pose proof (Hmax 0%nat first ltac:(now rewrite Hpts)) as Hfirst.
  rewrite Hpts at 1. cbn [getitem nth_error bind].
  replace (raw_value <? fst first) with false by (symmetry; apply Z.ltb_ge; lia).
  rewrite Hpts at 1. rewrite (getitem_last_cons first rest d), <- Hpts. cbn [bind].
  replace (raw_value >? fst (last points d)) with true; [reflexivity|].
  symmetry. rewrite Z.gtb_ltb. apply Z.ltb_lt. lia.
Qed.

End Paths.

(** The final [return -1.0] is out of reach as soon as there is one
    breakpoint, in whatever order the breakpoints come. *)
Lemma fallback_unreachable raw_value points :
  points <> [] ->
  exists path v, _linear_interpolate raw_value points = Ret (path, v)
                 /\ path <> NotPossible.
Proof.
  intros Hne. destruct points as [|first rest]; [congruence|].
  unfold _linear_interpolate.
  destruct (exact_loop raw_value (first :: rest)) as [o [-> Ho]]. cbn [bind].
  destruct o as [v|]; [exists AtBreakpoint, v; split; [reflexivity | discriminate]|].
  destruct (between_loop raw_value (first :: rest)) as [o [-> Hbet]]. cbn [bind].
  destruct o as [v|]; [exists BetweenBreakpoints, v; split; [reflexivity | discriminate]|].
  cbn [getitem nth_error bind].
  destruct (raw_value <? fst first) eqn:Elow;
    [exists BelowFirst, (snd first); split; [reflexivity | discriminate]|].
  rewrite (getitem_last_cons first rest first). cbn [bind].
  destruct (raw_value >? fst (last (first :: rest) first)) eqn:Ehigh;
    [eexists AboveLast, _; split; [reflexivity | discriminate]|].
  exfalso. apply Z.ltb_ge in Elow. rewrite Z.gtb_ltb in Ehigh. apply Z.ltb_ge in Ehigh.
  assert (Hf : fst first <> raw_value) by (apply Ho; now left).
  assert (Hl : fst (last (first :: rest) first) <> raw_value).
  { apply Ho. eapply nth_error_In. apply (nth_error_last first rest first). }
  destruct (crossing_exists raw_value rest first first Ho ltac:(lia) ltac:(lia))
    as (i & p0 & p1 & H0 & H1 & Hb).
  exact (Hbet i p0 p1 H0 H1 Hb).
Qed.

End Interpolation.

(** ** Address validation *)

Module Address.
Import Py.

Lemma hex_digit_not_space c : is_hex_digit c -> isspace c = false.
Proof.
  unfold is_hex_digit. intros H. destruct (isspace c) eqn:E; [|reflexivity].
  exfalso. apply H. clear H.
  destruct c as [[] [] [] [] [] [] [] []]; vm_compute in E; try discriminate E;
    reflexivity.
Qed.

Lemma parse_address_prefixed s :
  parse_address (PyStr (lit "0x" ++ s)) = fromhex s.
Proof. reflexivity. Qed.

Lemma parse_address_no_prefix s :
  startswith s (lit "0x") = false -> parse_address (PyStr s) = Raise ValueError.
Proof. intros H. unfold parse_address. now rewrite H. Qed.

Lemma fromhex_two_digits h l a b :
  hex_value h = Some a -> hex_value l = Some b ->
  fromhex [h; l] = Ret [a * 16 + b].
Proof.
  intros Hh Hl. cbn [fromhex].
  rewrite (hex_digit_not_space h) by (unfold is_hex_digit; congruence).
  now rewrite Hh, Hl.
Qed.

Lemma fromhex_ret_or_ValueError s :
  (exists b, fromhex s = Ret b) \/ fromhex s = Raise ValueError.
Proof.
  assert (H : forall n s, (length s <= n)%nat ->
                          (exists b, fromhex s = Ret b) \/ fromhex s = Raise ValueError).
  { clear s. induction n as [|n IH]; intros s Hs.
    - destruct s; [left; now exists [] | simpl in Hs; lia].
    - destruct s as [|c t]; [left; now exists []|]. cbn [fromhex length] in *.
      destruct (isspace c); [apply IH; lia|].
      destruct (hex_value c); [|now right].
      destruct t as [|d t']; [now right|].
      destruct (hex_value d); [|now right].
      destruct (IH t' ltac:(cbn [length] in Hs; lia)) as [[b ->] | ->];
        [left; eexists; reflexivity | now right]. }
  apply (H (length s)). lia.
Qed.

(** What [bytes.fromhex] accepts: apart from white space, hexadecimal digits
    only, two for each byte it returns. *)
Lemma fromhex_accepts s : forall b,
  fromhex s = Ret b ->
  Forall is_hex_digit (non_space s) /\ length (non_space s) = (2 * length b)%nat.
Proof.
  assert (H : forall n s b, (length s <= n)%nat -> fromhex s = Ret b ->
                Forall is_hex_digit (non_space s)
                /\ length (non_space s) = (2 * length b)%nat).
  { clear s. induction n as [|n IH]; intros s b Hs Hb.
    - destruct s; [|simpl in Hs; lia]. injection Hb as <-. split; [constructor | reflexivity].
    - destruct s as [|c t]; [injection Hb as <-; split; [constructor | reflexivity]|].
      cbn [fromhex length] in *. unfold non_space. cbn [filter].
      destruct (isspace c) eqn:Ec; cbn [negb]; [apply IH; [lia | exact Hb]|].
      destruct (hex_value c) as [top|] eqn:Etop; [|discriminate].
      destruct t as [|d t']; [discriminate|].
      destruct (hex_value d) as [bot|] eqn:Ebot; [|discriminate].
      destruct (fromhex t') as [rest|] eqn:Erest; [|discriminate].
      injection Hb as <-. cbn [filter].
      rewrite (hex_digit_not_space d) by (unfold is_hex_digit; congruence). cbn [negb].
      destruct (IH t' rest ltac:(cbn [length] in Hs; lia) Erest) as [Hall Hlen].
      fold (non_space t'). split.
      + repeat constructor; unfold is_hex_digit; congruence || exact Hall.
      + cbn [length]. lia. }
  intros b. apply (H (length s)). lia.
Qed.

(** A text with a character that is neither white space nor a hexadecimal
    digit, or with an odd number of digits, is refused. *)
Lemma fromhex_refuses s :
  ~ Forall is_hex_digit (non_space s) \/ Nat.Odd (length (non_space s)) ->
  fromhex s = Raise ValueError.
Proof.
  intros H. destruct (fromhex_ret_or_ValueError s) as [[b Hb] | Hr]; [|exact Hr].
  exfalso. destruct (fromhex_accepts s b Hb) as [Hall Hlen].
  destruct H as [H | [k Hk]]; [exact (H Hall) | lia].
Qed.

(** Two hexadecimal digits after the prefix give the one-byte address. *)
Lemma parse_address_two_digits h l a b :
  hex_value h = Some a -> hex_value l = Some b ->
  parse_address (PyStr (lit "0x" ++ [h; l])) = Ret [a * 16 + b].
Proof. intros Hh Hl. rewrite parse_address_prefixed. now apply fromhex_two_digits. Qed.

(** A [Device] is built exactly when both addresses are accepted, and it
    stores what [bytes.fromhex] returned. *)
Lemma init_built radio controller attempts self :
  __init__ radio controller attempts = Ret self <->
  parse_address radio = Ret (transceiver_address self) /\
  parse_address controller = Ret (controller_address self) /\
  _read_attempts self = attempts.
Proof.
  unfold __init__. split.
  - destruct (parse_address radio) as [t|]; [|discriminate].
    destruct (parse_address controller) as [c|]; [|discriminate].
    cbn [bind]. intros H. injection H as <-. auto.
  - intros (-> & -> & <-). cbn [bind]. now destruct self.
Qed.

Lemma init_refused radio controller attempts :
  (exists e, parse_address radio = Raise e) \/
  (exists e, parse_address controller = Raise e) ->
  exists e, __init__ radio controller attempts = Raise e.
Proof.
  unfold __init__. intros [[e ->] | [e He]]; [exists e; reflexivity|].
  rewrite He. destruct (parse_address radio); eexists; reflexivity.
Qed.

End Address.

(** ** The claims *)

Import Py.

(** *** The exchange primitive *)

(** C1 (defect of the code).  The claim: an echo of the outbound frame is
    discarded without using up a read attempt, so that an echo followed by a
    valid reply succeeds with a budget of one attempt.  The code: [i -= 1]
    inside [for i in range(...)] does not give the pass back, the echo uses up
    the only pass, the call raises the timeout exception (its message counts
    0 attempts) and the valid reply stays unread on the port.  With a budget
    of two the same traffic succeeds. *)
Theorem echo_uses_up_the_attempt :
  _send_command (ic7300 1) [0x03] [] [] (port [read_frequency_frame; frequency_reply])
  = (Raise (CivTimeoutException 0),
     {| written := [read_frequency_frame]; incoming := [frequency_reply] |})
  /\
  _send_command (ic7300 2) [0x03] [] [] (port [read_frequency_frame; frequency_reply])
  = (Ret frequency_reply, {| written := [read_frequency_frame]; incoming := [] |}).
Proof. split; reflexivity. Qed.

(** C2 (defect of the code).  The claim: a frame longer than two bytes whose
    address bytes are not this session's pair never satisfies the call and
    is discarded without using up a read attempt.  The code never returns
    such a frame, but the frame does use up a pass, for the reason of C1:
    with a budget of one attempt a foreign frame followed by the valid reply
    ends in the timeout exception, the reply unread. *)
Theorem foreign_frame_uses_up_the_attempt :
  _send_command (ic7300 1) [0x03] [] [] (port [foreign_frame; frequency_reply])
  = (Raise (CivTimeoutException 0),
     {| written := [read_frequency_frame]; incoming := [frequency_reply] |})
  /\
  _send_command (ic7300 2) [0x03] [] [] (port [foreign_frame; frequency_reply])
  = (Ret frequency_reply, {| written := [read_frequency_frame]; incoming := [] |}).
Proof. split; reflexivity. Qed.

(** C3.  When the first reply addressed to this device (every read before it
    being an echo, silence or a foreign frame, and the reply within the
    passes of the loop) has the negative acknowledge 0xFA at its
    second-to-last position, the call raises [CivCommandException] carrying
    that byte, and nothing after that reply is read, whatever the budget. *)
Theorem negative_acknowledge_fails_at_once
  (self : Device) (command data preamble : bytes) (ser : Serial)
  (pre : list bytes) (r : bytes) (rest : list bytes) :
  let cs := command_string self command data preamble in
  valid_command command ->
  incoming ser = pre ++ r :: rest ->
  Forall (passed_over self cs) pre ->
  Z.of_nat (length pre) < _read_attempts self ->
  r <> cs -> addressed_to self r -> status_byte r = Some 0xfa ->
  _send_command self command data preamble ser
  = (Raise (CivCommandException [0xfa]), after_reads cs (S (length pre)) ser).
Proof.
  intros cs Hcmd Hinc Hpre Hlen Hne Haddr Hcode.
  exact (Engine.first_addressed_reply_decides self command data preamble ser Hcmd
           pre r rest 0xfa Hinc Hpre Hlen Hne Haddr Hcode).
Qed.

Lemma negative_acknowledge_fails_at_once_witness :
  _send_command (ic7300 3) [0x03] [] []
    (port [read_frequency_frame; foreign_frame; ng_reply; frequency_reply])
  = (Raise (CivCommandException [0xfa]),
     {| written := [read_frequency_frame]; incoming := [frequency_reply] |}).
Proof.
  apply (negative_acknowledge_fails_at_once (ic7300 3) [0x03] [] []
           (port [read_frequency_frame; foreign_frame; ng_reply; frequency_reply])
           [read_frequency_frame; foreign_frame] ng_reply [frequency_reply]).
  - unfold valid_command. simpl. lia.
  - reflexivity.
  - constructor; [left; reflexivity|].
    constructor; [|constructor].
    right; right. exists 0x00, 0x94. repeat split. left. discriminate.
  - simpl. lia.
  - discriminate.
  - exists 0xe0, 0x94. repeat split.
  - reflexivity.
Defined.

(** C4 (defect of the code).  The claim: silence on every attempt ends in the
    timeout exception that reports [max_attempts] attempts.  The code does so
    for every budget of at least one attempt ([Engine.silence_times_out]),
    but with a budget of 0 the loop body never runs, [i] is unbound when the
    message of the exception is built, and the call ends in
    [UnboundLocalError] instead. *)
Theorem silence_with_empty_budget_is_unbound :
  _send_command (ic7300 0) [0x03] [] [] (port [])
  = (Raise UnboundLocalError, {| written := [read_frequency_frame]; incoming := [] |})
  /\
  _send_command (ic7300 3) [0x03] [] [] (port [])
  = (Raise (CivTimeoutException 3),
     {| written := [read_frequency_frame]; incoming := [] |}).
Proof. split; reflexivity. Qed.

(** *** Construction *)

(** C5 (defect of the code).  The claim: construction fails unless each
    address is "0x" followed by exactly two hexadecimal digits.  The code
    checks the prefix and leaves the rest to [bytes.fromhex], which takes
    any even number of digits and white space: "0x1234" is stored as a
    two-byte address, "0x" as an empty one, "0x 94" as 0x94. *)
Theorem init_accepts_addresses_not_of_two_digits :
  __init__ (PyStr (lit "0x1234")) (PyStr (lit "0xE0")) 3
  = Ret {| _read_attempts := 3;
           transceiver_address := [0x12; 0x34];
           controller_address := [0xe0] |}
  /\
  __init__ (PyStr (lit "0x94")) (PyStr (lit "0x")) 3
  = Ret {| _read_attempts := 3;
           transceiver_address := [0x94];
           controller_address := [] |}
  /\
  __init__ (PyStr (lit "0x 94")) (PyStr (lit "0xE0")) 3
  = Ret {| _read_attempts := 3;
           transceiver_address := [0x94];
           controller_address := [0xe0] |}.
Proof. repeat split. Qed.

(** *** The numeric codecs *)

(** C6.  For every integer frequency from 10,000 to 74,000,000 the encoder
    returns five bytes and the decoder returns the frequency from them. *)
Theorem frequency_round_trip (f : Z) :
  10000 <= f <= 74000000 ->
  exists b, _encode_frequency f = Ret b /\ length b = 5%nat
            /\ _decode_frequency b = Ret f.
Proof.
  intros Hf. exists (bcd5 f). split; [|split].
  - apply Codec.encode_nonneg. lia.
  - reflexivity.
  - apply Codec.decode_bcd5. lia.
Qed.

Lemma frequency_round_trip_witness :
  exists b, _encode_frequency 14074000 = Ret b /\ length b = 5%nat
            /\ _decode_frequency b = Ret 14074000.
Proof. apply (frequency_round_trip 14074000). lia. Defined.

(** C7, as the code has it.  The encoder checks nothing itself (the range
    check is its caller's, [Codec.send_operating_frequency_guard]).  It
    raises [ValueError] for the negative integers of at most nine digits,
    whose sign lands in one of the digit pairs.  Every other integer comes
    back as five bytes: a non-negative one as its ten least significant
    decimal digits, also when it has more than ten, and a negative one of
    ten digits or more as the ten least significant digits of its absolute
    value. *)
Theorem encode_frequency_range (f : Z) :
  (- 10 ^ 9 < f < 0 -> _encode_frequency f = Raise ValueError) /\
  (0 <= f -> _encode_frequency f = Ret (bcd5 f)) /\
  (f <= - 10 ^ 9 -> _encode_frequency f = Ret (bcd5 (- f))).
Proof.
  split; [|split].
  - apply Codec.encode_negative.
  - apply Codec.encode_nonneg.
  - apply Codec.encode_long_negative.
Qed.

Lemma encode_frequency_range_witness :
  _encode_frequency (-5) = Raise ValueError /\
  _encode_frequency 12345678901 = Ret (bcd5 12345678901) /\
  _encode_frequency (-1234567890) = Ret (bcd5 1234567890).
Proof.
  split; [|split].
  - apply (proj1 (encode_frequency_range (-5))). lia.
  - apply (proj1 (proj2 (encode_frequency_range 12345678901))). lia.
  - apply (proj2 (proj2 (encode_frequency_range (-1234567890)))). lia.
Defined.

(** C7 as stated fails: an input of eleven digits and a negative input both
    come back as five bytes, with no error. *)
Lemma encode_frequency_silent_counterexample :
  10 ^ 10 <= 12345678901 /\
  _encode_frequency 12345678901 = Ret [0x01; 0x89; 0x67; 0x45; 0x23] /\
  -1234567890 < 0 /\
  _encode_frequency (-1234567890) = Ret [0x90; 0x78; 0x56; 0x34; 0x12].
Proof. repeat split; vm_compute; congruence. Qed.

(** C8, as the code has it.  For a second byte whose two nibbles are decimal
    digits the result is the first byte times 100 plus the two digits read
    as a decimal number; for a second byte with a nibble above 9 the call
    raises [ValueError], since [int] refuses the letter. *)
Theorem bytes_to_int_packed_decimal (first_byte second_byte : Z) :
  0 <= second_byte < 256 ->
  (second_byte / 16 < 10 /\ second_byte mod 16 < 10 ->
   _bytes_to_int first_byte second_byte
   = Ret (first_byte * 100 + (10 * (second_byte / 16) + second_byte mod 16))) /\
  (10 <= second_byte / 16 \/ 10 <= second_byte mod 16 ->
   _bytes_to_int first_byte second_byte = Raise ValueError).
Proof.
  intros Hb. rewrite (Codec.bytes_to_int_eq first_byte second_byte Hb).
  unfold packed_decimal. split.
  - intros [Hhi Hlo].
    replace (second_byte / 16 <? 10) with true by (symmetry; apply Z.ltb_lt; lia).
    replace (second_byte mod 16 <? 10) with true by (symmetry; apply Z.ltb_lt; lia).
    reflexivity.
  - intros H.
    replace ((second_byte / 16 <? 10) && (second_byte mod 16 <? 10)) with false;
      [reflexivity|].
    symmetry. apply andb_false_iff.
    destruct H; [left | right]; apply Z.ltb_ge; lia.
Qed.

Lemma bytes_to_int_packed_decimal_witness :
  _bytes_to_int 1 0x20 = Ret 120 /\ _bytes_to_int 1 0x1a = Raise ValueError.
Proof.
  split.
  - apply (proj1 (bytes_to_int_packed_decimal 1 0x20 ltac:(lia))).
    split; reflexivity.
  - apply (proj2 (bytes_to_int_packed_decimal 1 0x1a ltac:(lia))).
    right. discriminate.
Defined.

(** C8 as stated fails: with the nibble 0xA in the second byte the call
    raises and returns no integer. *)
Lemma bytes_to_int_total_counterexample :
  _bytes_to_int 1 0x1a = Raise ValueError /\
  ~ (exists v, _bytes_to_int 1 0x1a = Ret v).
Proof. split; [reflexivity|]. intros [v H]. discriminate H. Qed.

(** *** Interpolation *)

(** C9.  For breakpoints in strictly ascending order of raw value: a raw
    value that is a breakpoint's gives that breakpoint's value; one strictly
    between two neighbours gives the interpolation between them; one below
    the first gives the first value, one above the last the last value.  For
    the points [(0,0),(120,100)] the results at -5, 60 and 500 are 0, 50
    and 100. *)
Theorem linear_interpolate_cases :
  (forall (raw_value : Z) (points : list (Z * Q)),
      Sorted raw_lt points ->
      (forall p, In p points -> fst p = raw_value ->
                 _linear_interpolate raw_value points = Ret (AtBreakpoint, snd p)) /\
      (forall (i : nat) p0 p1,
          nth_error points i = Some p0 -> nth_error points (S i) = Some p1 ->
          fst p0 < raw_value < fst p1 ->
          _linear_interpolate raw_value points
          = Ret (BetweenBreakpoints, interpolation raw_value p0 p1)
          /\ on_line p0 p1 raw_value (interpolation raw_value p0 p1)) /\
      (forall first rest,
          points = first :: rest -> raw_value < fst first ->
          _linear_interpolate raw_value points = Ret (BelowFirst, snd first)) /\
      (forall first rest,
          points = first :: rest -> raw_value > fst (last points first) ->
          _linear_interpolate raw_value points
          = Ret (AboveLast, snd (last points first)))) /\
  _linear_interpolate (-5) alc_points = Ret (BelowFirst, 0%Q) /\
  (exists v, _linear_interpolate 60 alc_points = Ret (BetweenBreakpoints, v)
             /\ (v == 50)%Q) /\
  _linear_interpolate 500 alc_points = Ret (AboveLast, 100%Q).
Proof.
  split; [|split; [|split]].
  - intros raw_value points Hs. split; [|split; [|split]].
    + intros p. apply Interpolation.at_breakpoint; assumption.
    + intros i p0 p1 H0 H1 Hb. split.
      * now apply (Interpolation.between_breakpoints raw_value points Hs i).
      * apply Interpolation.interpolation_on_line. lia.
    + intros first rest. apply Interpolation.below_first; assumption.
    + intros first rest. apply Interpolation.above_last; assumption.
  - reflexivity.
  - eexists. split; reflexivity.
  - reflexivity.
Qed.

Lemma alc_points_ascending : Sorted raw_lt alc_points.
Proof. repeat constructor. Defined.

Lemma linear_interpolate_cases_witness :
  _linear_interpolate 120 alc_points = Ret (AtBreakpoint, 100%Q) /\
  _linear_interpolate 60 alc_points
  = Ret (BetweenBreakpoints, interpolation 60 (0, 0%Q) (120, 100%Q)) /\
  _linear_interpolate (-5) alc_points = Ret (BelowFirst, 0%Q) /\
  _linear_interpolate 500 alc_points = Ret (AboveLast, 100%Q).
Proof.
  destruct (proj1 linear_interpolate_cases 120 alc_points alc_points_ascending)
    as [Hexact _].
  destruct (proj1 linear_interpolate_cases 60 alc_points alc_points_ascending)
    as [_ [Hbetween _]].
  destruct (proj1 linear_interpolate_cases (-5) alc_points alc_points_ascending)
    as [_ [_ [Hbelow _]]].
  destruct (proj1 linear_interpolate_cases 500 alc_points alc_points_ascending)
    as [_ [_ [_ Habove]]].
  split; [|split; [|split]].
  - apply (Hexact (120, 100%Q)); [right; left; reflexivity | reflexivity].
  - apply (Hbetween 0%nat (0, 0%Q) (120, 100%Q)); [reflexivity | reflexivity |].
    simpl. lia.
  - apply (Hbelow (0, 0%Q) [(120, 100%Q)]); [reflexivity | simpl; lia].
  - apply (Habove (0, 0%Q) [(120, 100%Q)]); [reflexivity | simpl; lia].
Defined.

(** C10.  With at least one breakpoint, in strictly ascending order, no raw
    value reaches the final [return -1.0]: every call returns through the
    exact match, the interpolation between two neighbours or one of the two
    clamps.  ([Interpolation.fallback_unreachable] shows that the order of
    the breakpoints is not even needed.) *)
Theorem linear_interpolate_never_falls_through
  (raw_value : Z) (points : list (Z * Q)) :
  points <> [] -> Sorted raw_lt points ->
  exists path v,
    _linear_interpolate raw_value points = Ret (path, v) /\
    (path = AtBreakpoint \/ path = BetweenBreakpoints \/
     path = BelowFirst \/ path = AboveLast).
Proof.
  intros Hne _.
  destruct (Interpolation.fallback_unreachable raw_value points Hne)
    as (path & v & Hret & Hpath).
  exists path, v. split; [exact Hret|].
  destruct path; auto. congruence.
Qed.

Lemma linear_interpolate_never_falls_through_witness :
  exists path v,
    _linear_interpolate 60 alc_points = Ret (path, v) /\
    (path = AtBreakpoint \/ path = BetweenBreakpoints \/
     path = BelowFirst \/ path = AboveLast).
Proof.
  apply (linear_interpolate_never_falls_through 60 alc_points).
  - discriminate.
  - repeat constructor.
Defined.

(** ** More on the exchange engine *)

Module EngineMore.
Import Py.

(** One pass takes one entry from the script (none is left to take past its
    end) and writes nothing. *)
Lemma body_port self cs k l ser :
  written (snd (loop_body self cs k l ser)) = written ser /\
  incoming (snd (loop_body self cs k l ser)) = skipn 1 (incoming ser).
Proof.
  unfold loop_body, read_until.
  destruct (incoming ser) as [|r rest] eqn:E;
    repeat match goal with
           | |- context [if ?c then _ else _] => destruct c
           | |- context [match getitem ?s ?n with _ => _ end] =>
               destruct (getitem s n)
           end;
    cbn [snd written incoming skipn]; auto.
Qed.

Lemma for_range_port self cs idx : forall l ser,
  written (snd (for_range self cs idx l ser)) = written ser /\
  exists n, (n <= length idx)%nat /\
            incoming (snd (for_range self cs idx l ser)) = skipn n (incoming ser).
Proof.
  induction idx as [|k idx IH]; intros l ser.
  - cbn [for_range snd]. split; [reflexivity|]. exists 0%nat. split; [lia | reflexivity].
  - cbn [for_range length]. destruct (body_port self cs k l ser) as [Hw Hi].
    destruct (loop_body self cs k l ser) as [[l1|l1|e] ser1]; cbn [snd] in *.
    + destruct (IH l1 ser1) as [Hw' [n [Hn Hi']]]. split; [congruence|].
      exists (S n). split; [lia|]. rewrite Hi', Hi.
      change (S n) with (1 + n)%nat. now rewrite Nat.add_comm, skipn_skipn.
    + split; [exact Hw|]. exists 1%nat. split; [lia | exact Hi].
    + split; [exact Hw|]. exists 1%nat. split; [lia | exact Hi].
Qed.

Lemma invalid_command_check command :
  ~ valid_command command ->
  negb (existsb (Z.eqb (len command)) [1; 2; 3; 4]) = true.
Proof.
  unfold valid_command, len. intros H.
  destruct (length command) as [|[|[|[|[|n]]]]] eqn:E; try (exfalso; lia);
    [reflexivity|].
  apply negb_true_iff. cbn [existsb].
  repeat (apply orb_false_iff; split); try reflexivity; apply Z.eqb_neq; lia.
Qed.

(** An accepted reply has its four header bytes. *)
Lemma accepted_length self cs r : accepted self cs r -> (4 <= length r)%nat.
Proof.
  intros (_ & (c & t & _ & H3 & _) & _).
  assert (3 < length r)%nat by (apply nth_error_Some; congruence). lia.
Qed.

Section Calls.
Variables (self : Device) (command data preamble : bytes) (ser : Serial).
Hypothesis command_ok : valid_command command.
Local Abbreviation cs := (command_string self command data preamble).

Lemma three_byte_read_raises pre r rest :
  incoming ser = pre ++ r :: rest ->
  Forall (passed_over self cs) pre ->
  Z.of_nat (length pre) < _read_attempts self ->
  length r = 3%nat ->
  _send_command self command data preamble ser
  = (Raise IndexError, after_reads cs (S (length pre)) ser).
Proof.
  intros Hinc Hall Hlen Hr.
  rewrite (Engine.send_command_eq self command data preamble ser command_ok), Hinc.
  rewrite (Engine.range_split (_read_attempts self) (length pre)) by lia.
  destruct (Engine.for_range_passed_over self cs
              (Engine.command_string_length _ _ _ _) pre
              (map Z.of_nat (seq 0 (length pre)))
              (Z.of_nat (length pre)
               :: map Z.of_nat (seq (S (length pre))
                                    (Z.to_nat (_read_attempts self) - S (length pre))))
              {| i := None; reply := []; valid_reply := false |}
              (written ser ++ [cs]) (r :: rest)) as (l' & Hfor & _).
  { now rewrite length_map, length_seq. }
  { exact Hall. }
  rewrite Hfor. cbn [for_range].
  assert (Hne : r <> cs).
  { intros ->. unfold command_string in Hr. rewrite !length_app in Hr.
    unfold valid_command in command_ok. cbn [length] in Hr. lia. }
  rewrite (Engine.body_three_bytes self cs _ _
             {| written := written ser ++ [cs]; incoming := r :: rest |}
             r rest eq_refl Hne Hr).
  unfold after_reads. rewrite Hinc.
  replace (skipn (S (length pre)) (pre ++ r :: rest)) with rest; [reflexivity|].
  change (S (length pre)) with (1 + length pre)%nat.
  rewrite <- skipn_skipn, skipn_app, skipn_all, Nat.sub_diag. reflexivity.
Qed.

Lemma port_discipline :
  written (snd (_send_command self command data preamble ser))
  = written ser ++ [cs] /\
  exists n, Z.of_nat n <= Z.max 0 (_read_attempts self) /\
            incoming (snd (_send_command self command data preamble ser))
            = skipn n (incoming ser).
Proof.
  rewrite (Engine.send_command_eq self command data preamble ser command_ok).
  destruct (for_range_port self cs (range (_read_attempts self))
              {| i := None; reply := []; valid_reply := false |}
              {| written := written ser ++ [cs]; incoming := incoming ser |})
    as [Hw [n [Hn Hi]]].
  assert (Hlen : length (range (_read_attempts self)) = Z.to_nat (_read_attempts self))
    by (unfold range; now rewrite length_map, length_seq).
  destruct (for_range _ _ _ _ _) as [[l1|l1|e] ser1]; cbn [snd written incoming] in *.
  - destruct (negb (valid_reply l1)); [destruct (i l1)|]; cbn [snd];
      (split; [exact Hw | exists n; split; [lia | exact Hi]]).
  - destruct (negb (valid_reply l1)); [destruct (i l1)|]; cbn [snd];
      (split; [exact Hw | exists n; split; [lia | exact Hi]]).
  - split; [exact Hw | exists n; split; [lia | exact Hi]].
Qed.

End Calls.

End EngineMore.

(** ** More on the frequency codec *)

Module CodecMore.
Import Py PyFacts.

(** The number with the given decimal digits, least significant first. *)
Lemma of_digits_digits d0 d1 d2 d3 d4 d5 d6 d7 d8 d9 :
  0 <= d0 < 10 -> 0 <= d1 < 10 -> 0 <= d2 < 10 -> 0 <= d3 < 10 -> 0 <= d4 < 10 ->
  0 <= d5 < 10 -> 0 <= d6 < 10 -> 0 <= d7 < 10 -> 0 <= d8 < 10 -> 0 <= d9 < 10 ->
  let f := d0 + 10 * (d1 + 10 * (d2 + 10 * (d3 + 10 * (d4 + 10 * (d5 + 10 * (d6
           + 10 * (d7 + 10 * (d8 + 10 * d9)))))))) in
  0 <= f < 10 ^ 10 /\
  dec_digit f 0 = d0 /\ dec_digit f 1 = d1 /\ dec_digit f 2 = d2 /\
  dec_digit f 3 = d3 /\ dec_digit f 4 = d4 /\ dec_digit f 5 = d5 /\
  dec_digit f 6 = d6 /\ dec_digit f 7 = d7 /\ dec_digit f 8 = d8 /\
  dec_digit f 9 = d9.
Proof.
  intros. unfold f, dec_digit. split; [lia|].
  repeat split; Z.to_euclidean_division_equations; lia.
Qed.

Lemma is_bcd_split b : is_bcd b ->
  0 <= b / 16 < 10 /\ 0 <= b mod 16 < 10 /\ b = 16 * (b / 16) + b mod 16.
Proof. unfold is_bcd. intros (Hb & Hhi & Hlo). Z.to_euclidean_division_equations; lia. Qed.

Lemma is_bcd_below_marker b : is_bcd b -> b <= 0x99.
Proof. intros H. destruct (is_bcd_split b H) as (? & ? & ?). lia. Qed.

(** Five bytes of packed decimal are the encoding of a number below
    10^10. *)
Lemma bcd_bytes_are_bcd5 b : length b = 5%nat -> Forall is_bcd b ->
  exists f, 0 <= f < 10 ^ 10 /\ b = bcd5 f.
Proof.
  intros Hlen Hall.
  destruct b as [|b0 [|b1 [|b2 [|b3 [|b4 [|b5 t]]]]]]; try discriminate Hlen.
  repeat match goal with
         | H : Forall _ (_ :: _) |- _ => inversion H; clear H; subst
         end.
  repeat match goal with
         | H : is_bcd ?x |- _ =>
             let Hhi := fresh "Hhi" in let Hlo := fresh "Hlo" in
             let Heq := fresh "Heq" in
             destruct (is_bcd_split x H) as (Hhi & Hlo & Heq); clear H
         end.
  destruct (of_digits_digits (b0 mod 16) (b0 / 16) (b1 mod 16) (b1 / 16)
              (b2 mod 16) (b2 / 16) (b3 mod 16) (b3 / 16) (b4 mod 16) (b4 / 16))
    as (Hf & E0 & E1 & E2 & E3 & E4 & E5 & E6 & E7 & E8 & E9); try assumption.
  eexists. split; [exact Hf|].
  unfold bcd5, bcd_byte. cbn [map].
  change (2 * 0 + 1) with 1. change (2 * 0) with 0.
  change (2 * 1 + 1) with 3. change (2 * 1) with 2.
  change (2 * 2 + 1) with 5. change (2 * 2) with 4.
  change (2 * 3 + 1) with 7. change (2 * 3) with 6.
  change (2 * 4 + 1) with 9. change (2 * 4) with 8.
  rewrite E0, E1, E2, E3, E4, E5, E6, E7, E8, E9. congruence.
Qed.

Lemma bcd5_is_bcd f : Forall is_bcd (bcd5 f).
Proof.
  unfold bcd5. apply Forall_forall. intros x Hx. apply in_map_iff in Hx.
  destruct Hx as [k [<- _]]. unfold is_bcd.
  destruct (Codec.bcd_byte_nibbles f k) as [-> ->].
  pose proof (Codec.bcd_byte_range f k).
  pose proof (Codec.dec_digit_range f (2 * k + 1)).
  pose proof (Codec.dec_digit_range f (2 * k)). lia.
Qed.

(** What the encoder returns, when it returns. *)
Lemma encode_returns f b : _encode_frequency f = Ret b ->
  b = bcd5 f \/ b = bcd5 (- f).
Proof.
  intros H. destruct (Z_lt_le_dec f 0) as [Hneg|Hpos].
  - destruct (Z_le_gt_dec f (- 10 ^ 9)) as [Hlong|Hshort].
    + rewrite (Codec.encode_long_negative f Hlong) in H. right. congruence.
    + rewrite (Codec.encode_negative f) in H by lia. discriminate.
  - rewrite (Codec.encode_nonneg f Hpos) in H. left. congruence.
Qed.

(** *** The decoder on any number of bytes *)

Lemma strip_0x_decimal s : strip_0x 10 s = s.
Proof. destruct s as [|c0 [|c1 t]]; reflexivity. Qed.

(** The characters the [02X] format prints for the bytes of [b]. *)
Lemma printed_chars b : well_formed b ->
  Forall (fun c => exists d, 0 <= d < 16 /\ c = digit_char d)
         (concat (map format_02X b)).
Proof.
  induction 1 as [|x b Hx Hb IH]; [constructor|].
  cbn [map concat]. rewrite (format_02X_byte x Hx). cbn [app].
  constructor; [exists (x / 16); split; [|reflexivity];
                Z.to_euclidean_division_equations; lia|].
  constructor; [exists (x mod 16); split; [|reflexivity];
                Z.to_euclidean_division_equations; lia|].
  exact IH.
Qed.

Lemma printed_chars_bcd b : Forall is_bcd b ->
  Forall (fun c => exists d, 0 <= d < 10 /\ c = digit_char d)
         (concat (map format_02X b)).
Proof.
  induction 1 as [|x b Hx Hb IH]; [constructor|].
  destruct (is_bcd_split x Hx) as (Hhi & Hlo & _). destruct Hx as [Hx _].
  cbn [map concat]. rewrite (format_02X_byte x Hx). cbn [app].
  constructor; [exists (x / 16); auto|].
  constructor; [exists (x mod 16); auto|]. exact IH.
Qed.

Lemma parse_decimal_digits s :
  Forall (fun c => exists d, 0 <= d < 10 /\ c = digit_char d) s ->
  forall acc, 0 <= acc -> exists v, parse_digits 10 acc s = Some v /\ 0 <= v.
Proof.
  induction 1 as [|c s (d & Hd & ->) Hs IH]; intros acc Hacc.
  - exists acc. split; [reflexivity | exact Hacc].
  - cbn [parse_digits]. rewrite digit_value_char by lia.
    replace (d <? 10) with true by (symmetry; apply Z.ltb_lt; lia).
    apply IH. lia.
Qed.

Lemma parse_letter_fails s c d : In c s ->
  digit_value c = Some d -> 10 <= d ->
  forall acc, parse_digits 10 acc s = None.
Proof.
  intros Hin Hc Hd. induction s as [|c' s IH]; intros acc; [destruct Hin|].
  cbn [parse_digits]. destruct Hin as [-> | Hin].
  - rewrite Hc. replace (d <? 10) with false by (symmetry; apply Z.ltb_ge; lia).
    reflexivity.
  - destruct (digit_value c') as [d'|]; [|reflexivity].
    destruct (d' <? 10); [apply IH; exact Hin | reflexivity].
Qed.

Lemma int_decimal_of_printed s :
  Forall (fun c => exists d, 0 <= d < 16 /\ c = digit_char d) s ->
  int s 10 = match s with
             | [] => Raise ValueError
             | _ => match parse_digits 10 0 s with
                    | Some v => Ret v
                    | None => Raise ValueError
                    end
             end.
Proof.
  intros Hs. destruct s as [|c s]; [reflexivity|].
  inversion Hs as [|? ? (d & Hd & ->) _]; subst.
  unfold int, strip_sign. destruct (digit_char_not_sign d Hd) as [-> ->].
  rewrite strip_0x_decimal. reflexivity.
Qed.

Lemma decode_bcd_bytes b : b <> [] -> Forall is_bcd b ->
  exists f, _decode_frequency b = Ret f /\ 0 <= f.
Proof.
  intros Hne Hb. unfold _decode_frequency.
  assert (Hrev : Forall is_bcd (rev b)).
  { apply Forall_forall. intros x Hx. rewrite Forall_forall in Hb.
    apply Hb. now apply in_rev. }
  assert (Hwf : well_formed (rev b)).
  { eapply Forall_impl; [|exact Hrev]. now intros x [Hx _]. }
  rewrite (int_decimal_of_printed _ (printed_chars _ Hwf)).
  destruct (parse_decimal_digits _ (printed_chars_bcd _ Hrev) 0 ltac:(lia))
    as (v & Hv & Hpos).
  rewrite Hv.
  destruct (rev b) as [|x t] eqn:E.
  - exfalso. apply Hne. apply (f_equal (@rev Z)) in E.
    now rewrite rev_involutive in E.
  - inversion Hwf as [|? ? Hx _]; subst. cbn [map concat].
    rewrite (format_02X_byte x Hx). cbn [app]. exists v. auto.
Qed.

Lemma decode_rejects b : well_formed b ->
  b = [] \/ Exists (fun x => ~ is_bcd x) b ->
  _decode_frequency b = Raise ValueError.
Proof.
  intros Hwf [-> | Hex]; [reflexivity|].
  unfold _decode_frequency.
  assert (Hwf' : well_formed (rev b)).
  { apply Forall_forall. intros x Hx. unfold well_formed in Hwf.
    rewrite Forall_forall in Hwf. apply Hwf. now apply in_rev. }
  rewrite (int_decimal_of_printed _ (printed_chars _ Hwf')).
  apply Exists_exists in Hex. destruct Hex as (x & Hx & Hbad).
  assert (Hr : 0 <= x < 256)
    by (unfold well_formed in Hwf; rewrite Forall_forall in Hwf; auto).
  assert (Hnib : 10 <= x / 16 < 16 \/ 10 <= x mod 16 < 16).
  { unfold is_bcd in Hbad. Z.to_euclidean_division_equations. lia. }
  assert (Hin : exists c d, In c (concat (map format_02X (rev b)))
                            /\ digit_value c = Some d /\ 10 <= d).
  { destruct Hnib as [Hn | Hn].
    - exists (digit_char (x / 16)), (x / 16). split; [|split; [|lia]].
      + apply in_concat. exists (format_02X x). split.
        * apply in_map. now apply in_rev in Hx.
        * rewrite (format_02X_byte x Hr). now left.
      + apply digit_value_char. lia.
    - exists (digit_char (x mod 16)), (x mod 16). split; [|split; [|lia]].
      + apply in_concat. exists (format_02X x). split.
        * apply in_map. now apply in_rev in Hx.
        * rewrite (format_02X_byte x Hr). right. now left.
      + apply digit_value_char. lia. }
  destruct Hin as (c & d & Hin & Hc & Hd).
  rewrite (parse_letter_fails _ c d Hin Hc Hd).
  destruct (concat _); reflexivity.
Qed.

End CodecMore.

(** ** Rescaling and the range of the interpolation *)

Module Scaling.
Import Py.

Lemma convert_nondegenerate x omin omax nmin nmax :
  (omin < omax)%Q ->
  _convert_to_range x omin omax nmin nmax
  = ((x - omin) * (nmax - nmin) / (omax - omin) + nmin)%Q.
Proof.
  intros H. unfold _convert_to_range.
  destruct (Qeq_bool (omax - omin) 0) eqn:E; [|reflexivity].
  apply Qeq_bool_eq in E. lra.
Qed.

Lemma scaled_between t lo hi k :
  (0 < k -> lo <= hi -> 0 <= t <= k -> lo <= t * (hi - lo) / k + lo <= hi)%Q.
Proof.
  intros Hk Hl [Ht0 Ht1].
  assert (H0 : (0 <= t * (hi - lo) / k)%Q).
  { apply Qle_shift_div_l; [exact Hk|]. nra. }
  assert (H1 : (t * (hi - lo) / k <= hi - lo)%Q).
  { apply Qle_shift_div_r; [exact Hk|]. nra. }
  lra.
Qed.

Lemma scaled_monotone t u lo hi k :
  (0 < k -> lo <= hi -> t <= u ->
   t * (hi - lo) / k + lo <= u * (hi - lo) / k + lo)%Q.
Proof.
  intros Hk Hl Htu.
  assert (H : (t * (hi - lo) / k <= u * (hi - lo) / k)%Q).
  { unfold Qdiv. apply Qmult_le_compat_r; [nra|].
    apply Qlt_le_weak, Qinv_lt_0_compat, Hk. }
  lra.
Qed.

(** The interpolated value lies between any two bounds of the values of the
    two breakpoints. *)
Lemma interpolation_between raw p0 p1 lo hi :
  fst p0 < raw < fst p1 ->
  (lo <= snd p0 <= hi)%Q -> (lo <= snd p1 <= hi)%Q ->
  (lo <= interpolation raw p0 p1 <= hi)%Q.
Proof.
  destruct p0 as [x0 y0], p1 as [x1 y1]. cbn [fst snd]. intros Hx H0 H1.
  unfold interpolation.
  assert (Hk : (0 < inject_Z (x1 - x0))%Q)
    by (change 0%Q with (inject_Z 0); rewrite <- Zlt_Qlt; lia).
  assert (Ht0 : (0 <= inject_Z (raw - x0))%Q)
    by (change 0%Q with (inject_Z 0); rewrite <- Zle_Qle; lia).
  assert (Ht1 : (inject_Z (raw - x0) <= inject_Z (x1 - x0))%Q)
    by (rewrite <- Zle_Qle; lia).
  set (k := inject_Z (x1 - x0)) in *. set (t := inject_Z (raw - x0)) in *.
  set (w := (t / k)%Q).
  assert (Hw0 : (0 <= w)%Q) by (apply Qle_shift_div_l; [exact Hk | lra]).
  assert (Hw1 : (w <= 1)%Q) by (apply Qle_shift_div_r; [exact Hk | lra]).
  assert (E : (y0 + (y1 - y0) * t / k == y0 + (y1 - y0) * w)%Q)
    by (unfold w; field; lra).
  rewrite E. split; nra.
Qed.

(** Where a returned value comes from: a breakpoint, or the interpolation
    between two breakpoints that enclose the raw value. *)
Lemma interpolate_inv raw_value points path v :
  _linear_interpolate raw_value points = Ret (path, v) ->
  path = NotPossible \/
  (exists p, In p points /\ v = snd p) \/
  (exists p0 p1, In p0 points /\ In p1 points /\ fst p0 < raw_value < fst p1
                 /\ v = interpolation raw_value p0 p1).
Proof.
  unfold _linear_interpolate.
  destruct (Interpolation.exact_loop raw_value points) as [o [-> Ho]]. cbn [bind].
  destruct o as [v0|].
  { destruct Ho as (p & Hp & _ & <-). intros H. injection H as _ <-.
    right. left. eauto. }
  destruct (Interpolation.between_loop raw_value points) as [o [-> Hbet]]. cbn [bind].
  destruct o as [v0|].
  { destruct Hbet as (j & p0 & p1 & H0 & H1 & Hb & ->). intros H. injection H as _ <-.
    right. right. exists p0, p1. repeat split; try lia;
      eapply nth_error_In; eassumption. }
  unfold getitem at 1. destruct (nth_error points 0) as [first|] eqn:E0;
    [|discriminate]. cbn [bind].
  destruct (raw_value <? fst first).
  { intros H. injection H as _ <-. right. left. exists first.
    split; [eapply nth_error_In; eassumption | reflexivity]. }
  unfold getitem_last, getitem. destruct points as [|a l]; [discriminate|].
  destruct (nth_error (a :: l) (length (a :: l) - 1)) as [lst|] eqn:El;
    [|discriminate]. cbn [bind].
  destruct (raw_value >? fst lst); intros H; injection H as <- <-.
  - right. left. exists lst. split; [eapply nth_error_In; eassumption | reflexivity].
  - now left.
Qed.

(** With at least one breakpoint the call returns, and what it returns lies
    within any range that holds the breakpoints' values. *)
Lemma interpolate_in_range raw_value points lo hi :
  points <> [] ->
  (forall p, In p points -> (lo <= snd p <= hi)%Q) ->
  exists path v, _linear_interpolate raw_value points = Ret (path, v)
                 /\ path <> NotPossible /\ (lo <= v <= hi)%Q.
Proof.
  intros Hne Hrange.
  destruct (Interpolation.fallback_unreachable raw_value points Hne)
    as (path & v & Hret & Hpath).
  exists path, v. split; [exact Hret|]. split; [exact Hpath|].
  destruct (interpolate_inv raw_value points path v Hret)
    as [Hn | [(p & Hp & ->) | (p0 & p1 & H0 & H1 & Hb & ->)]].
  - congruence.
  - auto.
  - apply interpolation_between; auto.
Qed.

End Scaling.

(** ** Facts for the methods built on the exchange *)

Module Methods.
Import Py PyMore.

Lemma io_bind_ret {A B} (m : io A) (k : A -> io B) ser a ser' :
  m ser = (Ret a, ser') -> io_bind m k ser = k a ser'.
Proof. intros H. unfold io_bind. now rewrite H. Qed.

Lemma io_bind_raise {A B} (m : io A) (k : A -> io B) ser e ser' :
  m ser = (Raise e, ser') -> io_bind m k ser = (Raise e, ser').
Proof. intros H. unfold io_bind. now rewrite H. Qed.

Lemma firstn_1_skipn {A} (k : nat) : forall (s : list A) x,
  nth_error s k = Some x -> firstn 1 (skipn k s) = [x].
Proof.
  induction k as [|k IH]; intros [|y s] x H; try discriminate.
  - injection H as ->. reflexivity.
  - cbn [skipn]. apply IH. exact H.
Qed.

(** [s[k:k+1]] is the one element at [k]. *)
Lemma slice_one {A} (s : list A) (k : nat) x :
  nth_error s k = Some x -> slice s (Z.of_nat k) (Z.of_nat k + 1) = [x].
Proof.
  intros H. assert (Hk : (k < length s)%nat) by (apply nth_error_Some; congruence).
  unfold slice, slice_index, len.
  replace (Z.of_nat k <? 0) with false by (symmetry; apply Z.ltb_ge; lia).
  replace (Z.of_nat k + 1 <? 0) with false by (symmetry; apply Z.ltb_ge; lia).
  replace (Z.to_nat (Z.min (Z.of_nat k + 1) (Z.of_nat (length s))
                     - Z.min (Z.of_nat k) (Z.of_nat (length s)))) with 1%nat by lia.
  replace (Z.to_nat (Z.min (Z.of_nat k) (Z.of_nat (length s)))) with k by lia.
  now apply firstn_1_skipn.
Qed.

(** [s[-2:-1]] is the second-to-last element. *)
Lemma slice_penultimate (s : bytes) x :
  (2 <= length s)%nat -> status_byte s = Some x -> slice s (-2) (-1) = [x].
Proof.
  intros Hlen H. unfold status_byte in H. unfold slice, slice_index, len.
  change (-2 <? 0) with true. change (-1 <? 0) with true. cbv iota.
  replace (Z.to_nat (Z.max 0 (-1 + Z.of_nat (length s))
                     - Z.max 0 (-2 + Z.of_nat (length s)))) with 1%nat by lia.
  replace (Z.to_nat (Z.max 0 (-2 + Z.of_nat (length s)))) with (length s - 2)%nat
    by lia.
  now apply firstn_1_skipn.
Qed.

(** The slice that starts after [pre] and is as long as [d]. *)
Lemma slice_middle {A} (pre d post : list A) :
  slice (pre ++ d ++ post) (len pre) (len pre + len d) = d.
Proof.
  unfold slice, slice_index, len. rewrite !length_app.
  replace (Z.of_nat (length pre) <? 0) with false by (symmetry; apply Z.ltb_ge; lia).
  replace (Z.of_nat (length pre) + Z.of_nat (length d) <? 0) with false
    by (symmetry; apply Z.ltb_ge; lia).
  match goal with
  | |- firstn (Z.to_nat ?n) (skipn (Z.to_nat ?m) _) = _ =>
      replace (Z.to_nat n) with (length d) by lia;
      replace (Z.to_nat m) with (length pre) by lia
  end.
  rewrite skipn_app, skipn_all, Nat.sub_diag. cbn [app skipn].
  rewrite firstn_app, firstn_all, Nat.sub_diag. cbn [firstn]. apply app_nil_r.
Qed.

(** The padding loop stops with the name filled up to ten bytes. *)
Lemma pad_name_spec (passes : nat) : forall name_bytes,
  (10 - length name_bytes <= passes)%nat ->
  pad_name passes name_bytes
  = name_bytes ++ repeat 0x20 (10 - length name_bytes).
Proof.
  induction passes as [|k IH]; intros nb Hk.
  - replace (10 - length nb)%nat with 0%nat by lia. cbn. now rewrite app_nil_r.
  - cbn [pad_name]. unfold len. destruct (Z.of_nat (length nb) <? 10) eqn:E.
    + apply Z.ltb_lt in E. rewrite IH by (rewrite length_app; cbn [length]; lia).
      rewrite length_app. cbn [length]. rewrite <- app_assoc. f_equal.
      replace (10 - length nb)%nat with (S (10 - (length nb + 1))) by lia.
      reflexivity.
    + apply Z.ltb_ge in E. replace (10 - length nb)%nat with 0%nat by lia.
      cbn. now rewrite app_nil_r.
Qed.

Lemma to_bytes_2 n little : 0 <= n < 65536 ->
  to_bytes n 2 little
  = Done (if little then [n mod 256; n / 256] else [n / 256; n mod 256]).
Proof.
  intros Hn. unfold to_bytes. change (256 ^ Z.of_nat 2) with 65536.
  replace ((0 <=? n) && (n <? 65536)) with true
    by (symmetry; apply andb_true_iff; split; [apply Z.leb_le | apply Z.ltb_lt]; lia).
  cbn [le_bytes rev app].
  replace (n / 256 mod 256) with (n / 256)
    by (Z.to_euclidean_division_equations; lia).
  reflexivity.
Qed.

Lemma to_bytes_overflow n length little : n < 0 \/ 256 ^ Z.of_nat length <= n ->
  to_bytes n length little = Fail OverflowError.
Proof.
  intros H. unfold to_bytes.
  replace ((0 <=? n) && (n <? 256 ^ Z.of_nat length)) with false; [reflexivity|].
  symmetry. apply andb_false_iff.
  destruct H; [left; apply Z.leb_gt | right; apply Z.ltb_ge]; lia.
Qed.

Lemma chars_as_bytes (name : text) : well_formed name ->
  comprehension (fun char => bytes_of_ints [char]) name
  = Ret (map (fun c => [c]) name).
Proof.
  induction 1 as [|c name Hc Hn IH]; [reflexivity|].
  cbn [comprehension map]. unfold bytes_of_ints at 1. cbn [forallb].
  replace ((0 <=? c) && (c <? 256) && true) with true
    by (symmetry; rewrite andb_true_r; apply andb_true_iff;
        split; [apply Z.leb_le | apply Z.ltb_lt]; lia).
  cbn [bind]. rewrite IH. reflexivity.
Qed.

Lemma chars_beyond_byte (name : text) : ~ well_formed name ->
  comprehension (fun char => bytes_of_ints [char]) name = Raise ValueError.
Proof.
  induction name as [|c name IH]; intros H; [exfalso; apply H; constructor|].
  cbn [comprehension]. unfold bytes_of_ints at 1. cbn [forallb].
  destruct ((0 <=? c) && (c <? 256)) eqn:E; cbn [andb bind]; [|reflexivity].
  rewrite IH; [reflexivity|]. intros Hn. apply H. constructor; [|exact Hn].
  apply andb_true_iff in E. destruct E as [E1 E2].
  apply Z.leb_le in E1. apply Z.ltb_lt in E2. lia.
Qed.

Lemma concat_singletons {A} (l : list A) : concat (map (fun c => [c]) l) = l.
Proof. induction l as [|a l IH]; [reflexivity|]. cbn. now rewrite IH. Qed.

(** A byte that an enumeration value fits is printed by [hex] as that value
    in decimal. *)
Lemma int_hex_byte m : 0 <= m < 256 -> int (hex [m]) 10 = packed_decimal m.
Proof.
  intros Hm. apply Codec.result_Z_eqb_eq.
  exact (range_forallb
           (fun m => result_Z_eqb (int (hex [m]) 10) (packed_decimal m))
           256 ltac:(vm_compute; reflexivity) m Hm).
Qed.

(** The data bytes of a memory channel are the channel in the radio's own
    reading: hundreds in the first byte, two packed digits in the second. *)
Lemma memory_channel_data_spec ch : 1 <= ch <= 101 ->
  memory_channel_data ch = Ret [ch / 100; 16 * (ch / 10 mod 10) + ch mod 10].
Proof.
  intros Hch.
  pose proof (range_forallb
                (fun ch => (ch <? 1)
                           || match memory_channel_data ch with
                              | Ret [d0; d1] =>
                                  (d0 =? ch / 100)
                                  && (d1 =? 16 * (ch / 10 mod 10) + ch mod 10)
                              | _ => false
                              end)
                102 ltac:(vm_compute; reflexivity) ch ltac:(lia)) as H.
  cbv beta in H. replace (ch <? 1) with false in H
    by (symmetry; apply Z.ltb_ge; lia).
  cbn [orb] in H.
  destruct (memory_channel_data ch) as [[|d0 [|d1 [|d2 t]]]|]; try discriminate H.
  apply andb_true_iff in H. destruct H as [H0 H1].
  apply Z.eqb_eq in H0, H1. subst d0 d1. reflexivity.
Qed.

End Methods.

(** ** Further properties of the exchange *)

(** X1.  A command whose length is not 1 to 4 raises [ValueError] and leaves
    the port untouched.  Any other call writes its frame once, writes nothing
    else, and takes at most [max(0, _read_attempts)] reads from the port,
    whatever the outcome. *)
Theorem send_command_port_discipline
  (self : Device) (command data preamble : bytes) (ser : Serial) :
  (~ valid_command command ->
   _send_command self command data preamble ser = (Raise ValueError, ser)) /\
  (valid_command command ->
   written (snd (_send_command self command data preamble ser))
   = written ser ++ [command_string self command data preamble] /\
   exists n, Z.of_nat n <= Z.max 0 (_read_attempts self) /\
             incoming (snd (_send_command self command data preamble ser))
             = skipn n (incoming ser)).
Proof.
  split.
  - intros H. unfold _send_command.
    now rewrite (EngineMore.invalid_command_check command H).
  - intros H. exact (EngineMore.port_discipline self command data preamble ser H).
Qed.

Lemma send_command_port_discipline_witness :
  _send_command (ic7300 3) [] [] [] (port [frequency_reply])
  = (Raise ValueError, port [frequency_reply]) /\
  written (snd (_send_command (ic7300 3) [0x03] [] []
                  (port [foreign_frame; frequency_reply; ng_reply])))
  = [read_frequency_frame].
Proof.
  split.
  - apply (proj1 (send_command_port_discipline (ic7300 3) [] [] []
                    (port [frequency_reply]))).
    unfold valid_command. simpl. lia.
  - apply (proj2 (send_command_port_discipline (ic7300 3) [0x03] [] []
                    (port [foreign_frame; frequency_reply; ng_reply]))).
    unfold valid_command. simpl. lia.
Defined.

(** X2.  When the first reply addressed to this device comes within the
    passes of the loop (every read before it an echo, silence or a foreign
    frame) and its status byte is not 0xFA, the call returns that reply
    unchanged and reads nothing after it. *)
Theorem valid_reply_is_returned
  (self : Device) (command data preamble : bytes) (ser : Serial)
  (pre : list bytes) (r : bytes) (rest : list bytes) (code : Z) :
  let cs := command_string self command data preamble in
  valid_command command ->
  incoming ser = pre ++ r :: rest ->
  Forall (passed_over self cs) pre ->
  Z.of_nat (length pre) < _read_attempts self ->
  r <> cs -> addressed_to self r ->
  status_byte r = Some code -> code <> 0xfa ->
  _send_command self command data preamble ser
  = (Ret r, after_reads cs (S (length pre)) ser).
Proof.
  intros cs Hcmd Hinc Hpre Hlen Hne Haddr Hcode Hok.
  rewrite (Engine.first_addressed_reply_decides self command data preamble ser Hcmd
             pre r rest code Hinc Hpre Hlen Hne Haddr Hcode).
  replace (code =? 250) with false by (symmetry; apply Z.eqb_neq; exact Hok).
  reflexivity.
Qed.

Lemma valid_reply_is_returned_witness :
  _send_command (ic7300 3) [0x03] [] []
    (port [read_frequency_frame; []; frequency_reply; ng_reply])
  = (Ret frequency_reply,
     {| written := [read_frequency_frame]; incoming := [ng_reply] |}).
Proof.
  apply (valid_reply_is_returned (ic7300 3) [0x03] [] []
           (port [read_frequency_frame; []; frequency_reply; ng_reply])
           [read_frequency_frame; []] frequency_reply [ng_reply] 0x00).
  - unfold valid_command. simpl. lia.
  - reflexivity.
  - constructor; [left; reflexivity|].
    constructor; [right; left; unfold is_silence; simpl; lia | constructor].
  - simpl. lia.
  - discriminate.
  - exists 0xe0, 0x94. repeat split.
  - reflexivity.
  - discriminate.
Defined.

(** X3.  Whatever comes in, a reply the call returns is not the echo of the
    frame sent, carries this controller's address at byte 2 and this
    transceiver's at byte 3, has a status byte other than 0xFA, and is at
    least four bytes long. *)
Theorem returned_reply_is_accepted
  (self : Device) (command data preamble : bytes) (ser ser' : Serial) (r : bytes) :
  valid_command command ->
  _send_command self command data preamble ser = (Ret r, ser') ->
  accepted self (command_string self command data preamble) r /\
  (4 <= length r)%nat.
Proof.
  intros Hcmd Hret.
  pose proof (Engine.returned_reply_accepted self command data preamble ser Hcmd
                r ser' Hret) as Hacc.
  split; [exact Hacc|]. exact (EngineMore.accepted_length _ _ _ Hacc).
Qed.

Lemma returned_reply_is_accepted_witness :
  accepted (ic7300 3) (command_string (ic7300 3) [0x03] [] []) frequency_reply /\
  (4 <= length frequency_reply)%nat.
Proof.
  apply (returned_reply_is_accepted (ic7300 3) [0x03] [] []
           (port [foreign_frame; frequency_reply])
           {| written := [read_frequency_frame]; incoming := [] |}).
  - unfold valid_command. simpl. lia.
  - reflexivity.
Defined.

(** X4.  With a budget of at least one attempt, silence (reads of at most
    two bytes, or nothing left to read) on every attempt ends in
    [CivTimeoutException] whose message counts exactly [_read_attempts]
    attempts, after exactly that many reads. *)
Theorem silence_exhausts_the_budget
  (self : Device) (command data preamble : bytes) (ser : Serial) :
  valid_command command ->
  1 <= _read_attempts self ->
  Forall is_silence (firstn (Z.to_nat (_read_attempts self)) (incoming ser)) ->
  _send_command self command data preamble ser
  = (Raise (CivTimeoutException (_read_attempts self)),
     after_reads (command_string self command data preamble)
       (Z.to_nat (_read_attempts self)) ser).
Proof.
  intros Hcmd Hpos Hall.
  exact (Engine.silence_times_out self command data preamble ser Hcmd Hpos Hall).
Qed.

Lemma silence_exhausts_the_budget_witness :
  _send_command (ic7300 3) [0x03] [] [] (port [[]; [0xfd]; []; frequency_reply])
  = (Raise (CivTimeoutException 3),
     {| written := [read_frequency_frame]; incoming := [frequency_reply] |}).
Proof.
  apply (silence_exhausts_the_budget (ic7300 3) [0x03] [] []
           (port [[]; [0xfd]; []; frequency_reply])).
  - unfold valid_command. simpl. lia.
  - simpl. lia.
  - repeat constructor.
Defined.

(** X5.  Every read that is passed over uses up one pass of the loop, an
    echo or a foreign frame as much as silence: when as many such reads come
    in as the budget has passes, the call ends in [CivTimeoutException]
    (counting the budget, or one less when the last read was an echo or a
    foreign frame) and what follows on the port is not read. *)
Theorem passed_over_reads_use_the_budget
  (self : Device) (command data preamble : bytes) (ser : Serial)
  (pre tail : list bytes) :
  valid_command command ->
  incoming ser = pre ++ tail ->
  Forall (passed_over self (command_string self command data preamble)) pre ->
  1 <= _read_attempts self ->
  Z.of_nat (length pre) = _read_attempts self ->
  exists n,
    _send_command self command data preamble ser
    = (Raise (CivTimeoutException n),
       after_reads (command_string self command data preamble) (length pre) ser)
    /\ (n = _read_attempts self \/ n = _read_attempts self - 1).
Proof.
  intros Hcmd Hinc Hall Hpos Hlen.
  exact (Engine.passed_over_reads_exhaust_budget self command data preamble ser Hcmd
           pre tail Hinc Hall Hpos Hlen).
Qed.

Lemma passed_over_reads_use_the_budget_witness :
  exists n,
    _send_command (ic7300 2) [0x03] [] []
      (port [read_frequency_frame; foreign_frame; frequency_reply])
    = (Raise (CivTimeoutException n),
       after_reads (command_string (ic7300 2) [0x03] [] []) 2
         (port [read_frequency_frame; foreign_frame; frequency_reply]))
    /\ (n = 2 \/ n = 2 - 1).
Proof.
  apply (passed_over_reads_use_the_budget (ic7300 2) [0x03] [] []
           (port [read_frequency_frame; foreign_frame; frequency_reply])
           [read_frequency_frame; foreign_frame] [frequency_reply]).
  - unfold valid_command. simpl. lia.
  - reflexivity.
  - constructor; [left; reflexivity|].
    constructor; [|constructor].
    right; right. exists 0x00, 0x94. repeat split. left. discriminate.
  - simpl. lia.
  - reflexivity.
Defined.

(** X6.  A read of exactly three bytes that the loop reaches passes the
    length test [len(reply) > 2] and has no byte 3: the call ends in
    [IndexError], and nothing after that read is read. *)
Theorem three_byte_read_raises_index_error
  (self : Device) (command data preamble : bytes) (ser : Serial)
  (pre : list bytes) (r : bytes) (rest : list bytes) :
  valid_command command ->
  incoming ser = pre ++ r :: rest ->
  Forall (passed_over self (command_string self command data preamble)) pre ->
  Z.of_nat (length pre) < _read_attempts self ->
  length r = 3%nat ->
  _send_command self command data preamble ser
  = (Raise IndexError,
     after_reads (command_string self command data preamble) (S (length pre)) ser).
Proof.
  intros Hcmd Hinc Hall Hlen Hr.
  exact (EngineMore.three_byte_read_raises self command data preamble ser Hcmd
           pre r rest Hinc Hall Hlen Hr).
Qed.

Lemma three_byte_read_raises_index_error_witness :
  _send_command (ic7300 3) [0x03] [] [] (port [[]; [0xfe; 0xfe; 0xfd]; frequency_reply])
  = (Raise IndexError,
     {| written := [read_frequency_frame]; incoming := [frequency_reply] |}).
Proof.
  apply (three_byte_read_raises_index_error (ic7300 3) [0x03] [] []
           (port [[]; [0xfe; 0xfe; 0xfd]; frequency_reply])
           [[]] [0xfe; 0xfe; 0xfd] [frequency_reply]).
  - unfold valid_command. simpl. lia.
  - reflexivity.
  - constructor; [right; left; unfold is_silence; simpl; lia | constructor].
  - simpl. lia.
  - reflexivity.
Defined.

(** X7.  With a budget of zero or less the loop body never runs: the call
    writes its frame, reads nothing, and ends in [UnboundLocalError] when it
    builds the message of the timeout exception from the unbound [i]. *)
Theorem no_pass_leaves_i_unbound
  (self : Device) (command data preamble : bytes) (ser : Serial) :
  valid_command command ->
  _read_attempts self <= 0 ->
  _send_command self command data preamble ser
  = (Raise UnboundLocalError,
     after_reads (command_string self command data preamble) 0 ser).
Proof.
  intros Hcmd Hle.
  exact (Engine.empty_budget_unbound self command data preamble ser Hcmd Hle).
Qed.

Lemma no_pass_leaves_i_unbound_witness :
  _send_command (ic7300 (-1)) [0x03] [] [] (port [frequency_reply])
  = (Raise UnboundLocalError,
     {| written := [read_frequency_frame]; incoming := [frequency_reply] |}).
Proof.
  apply (no_pass_leaves_i_unbound (ic7300 (-1)) [0x03] [] [] (port [frequency_reply])).
  - unfold valid_command. simpl. lia.
  - simpl. lia.
Defined.

(** ** Further properties of the codecs *)

(** X8.  For every five bytes of packed decimal (both nibbles of each byte
    at most 9) the decoder returns a number below 10^10 and the encoder
    returns the same five bytes for it. *)
Theorem encode_inverts_decode (b : bytes) :
  length b = 5%nat -> Forall is_bcd b ->
  exists f, _decode_frequency b = Ret f /\ 0 <= f < 10 ^ 10
            /\ _encode_frequency f = Ret b.
Proof.
  intros Hlen Hall.
  destruct (CodecMore.bcd_bytes_are_bcd5 b Hlen Hall) as (f & Hf & ->).
  exists f. split; [apply Codec.decode_bcd5; exact Hf|].
  split; [exact Hf|]. apply Codec.encode_nonneg. lia.
Qed.

Lemma encode_inverts_decode_witness :
  exists f, _decode_frequency [0x00; 0x40; 0x07; 0x14; 0x00] = Ret f
            /\ 0 <= f < 10 ^ 10
            /\ _encode_frequency f = Ret [0x00; 0x40; 0x07; 0x14; 0x00].
Proof.
  apply (encode_inverts_decode [0x00; 0x40; 0x07; 0x14; 0x00]).
  - reflexivity.
  - repeat constructor; vm_compute; congruence.
Defined.

(** X9.  On a [bytes] object of any length the decoder returns a number, and
    a non-negative one, exactly when there is at least one byte and every
    byte is packed decimal; on the empty object and on any byte with a nibble
    above 9 it raises [ValueError]. *)
Theorem decode_defined_on_packed_decimal (b : bytes) :
  well_formed b ->
  (b <> [] /\ Forall is_bcd b ->
   exists f, _decode_frequency b = Ret f /\ 0 <= f) /\
  (b = [] \/ Exists (fun x => ~ is_bcd x) b ->
   _decode_frequency b = Raise ValueError).
Proof.
  intros Hwf. split.
  - intros [Hne Hall]. exact (CodecMore.decode_bcd_bytes b Hne Hall).
  - exact (CodecMore.decode_rejects b Hwf).
Qed.

Lemma decode_defined_on_packed_decimal_witness :
  (exists f, _decode_frequency [0x50; 0x14] = Ret f /\ 0 <= f) /\
  _decode_frequency [0x00; 0x1a; 0x00; 0x00; 0x00] = Raise ValueError.
Proof.
  split.
  - apply (proj1 (decode_defined_on_packed_decimal [0x50; 0x14]
                    ltac:(repeat constructor; lia))).
    split; [discriminate|]. repeat constructor; vm_compute; congruence.
  - apply (proj2 (decode_defined_on_packed_decimal [0x00; 0x1a; 0x00; 0x00; 0x00]
                    ltac:(repeat constructor; lia))).
    right. apply Exists_cons_tl, Exists_cons_hd.
    unfold is_bcd. vm_compute. intros (_ & _ & H). discriminate H.
Defined.

(** X10.  Whenever the encoder returns, it returns five bytes of packed
    decimal: none of them is above 0x99, so the payload holds neither the
    terminator 0xFD nor the marker 0xFE. *)
Theorem encoded_frequency_is_packed_decimal (f : Z) (b : bytes) :
  _encode_frequency f = Ret b ->
  length b = 5%nat /\ Forall is_bcd b /\ ~ In 0xfd b /\ ~ In 0xfe b.
Proof.
  intros H.
  assert (Hb : Forall is_bcd b /\ length b = 5%nat).
  { destruct (CodecMore.encode_returns f b H) as [-> | ->];
      (split; [apply CodecMore.bcd5_is_bcd | reflexivity]). }
  destruct Hb as [Hall Hlen]. split; [exact Hlen|]. split; [exact Hall|].
  rewrite Forall_forall in Hall.
  split; intros Hin; apply Hall in Hin; apply CodecMore.is_bcd_below_marker in Hin; lia.
Qed.

Lemma encoded_frequency_is_packed_decimal_witness :
  length [0x00; 0x40; 0x07; 0x14; 0x00] = 5%nat
  /\ Forall is_bcd [0x00; 0x40; 0x07; 0x14; 0x00]
  /\ ~ In 0xfd [0x00; 0x40; 0x07; 0x14; 0x00]
  /\ ~ In 0xfe [0x00; 0x40; 0x07; 0x14; 0x00].
Proof.
  apply (encoded_frequency_is_packed_decimal 14074000). reflexivity.
Defined.

(** X11.  [_convert_to_range] returns [new_min] when the old range is
    empty.  On a proper old range it maps [old_min] to [new_min] and
    [old_max] to [new_max], and when [new_min <= new_max] it keeps the order
    of its inputs and maps the old range into the new one. *)
Theorem convert_to_range_scales (old_min old_max new_min new_max : Q) :
  ((old_max == old_min)%Q ->
   forall x, _convert_to_range x old_min old_max new_min new_max = new_min) /\
  ((old_min < old_max)%Q ->
   (_convert_to_range old_min old_min old_max new_min new_max == new_min)%Q /\
   (_convert_to_range old_max old_min old_max new_min new_max == new_max)%Q /\
   ((new_min <= new_max)%Q ->
    (forall x y, (x <= y)%Q ->
       (_convert_to_range x old_min old_max new_min new_max
        <= _convert_to_range y old_min old_max new_min new_max)%Q) /\
    (forall x, (old_min <= x <= old_max)%Q ->
       (new_min <= _convert_to_range x old_min old_max new_min new_max
        <= new_max)%Q))).
Proof.
  split.
  - intros E x. unfold _convert_to_range.
    replace (Qeq_bool (old_max - old_min) 0) with true; [reflexivity|].
    symmetry. apply Qeq_bool_iff. lra.
  - intros Hlt. split; [|split].
    + rewrite Scaling.convert_nondegenerate by assumption. field. lra.
    + rewrite Scaling.convert_nondegenerate by assumption. field. lra.
    + intros Hnew. split.
      * intros x y Hxy. rewrite !Scaling.convert_nondegenerate by assumption.
        apply Scaling.scaled_monotone; lra.
      * intros x Hx. rewrite Scaling.convert_nondegenerate by assumption.
        apply Scaling.scaled_between; lra.
Qed.

Lemma convert_to_range_scales_witness :
  _convert_to_range 7 10 10 0 100 = 0%Q /\
  (_convert_to_range 255 0 255 0 100 == 100)%Q /\
  (0 <= _convert_to_range 128 0 255 0 100 <= 100)%Q.
Proof.
  split; [|split].
  - apply (proj1 (convert_to_range_scales 10 10 0 100)). reflexivity.
  - apply (proj2 (convert_to_range_scales 0 255 0 100)). reflexivity.
  - apply (proj2 (convert_to_range_scales 0 255 0 100)).
    + reflexivity.
    + discriminate.
    + split; discriminate.
Defined.

(** X12.  With at least one breakpoint [_linear_interpolate] returns (it
    never raises and never falls through to -1.0), and the value it returns
    lies within every range that holds all the breakpoints' values; the
    breakpoints need not be sorted for this. *)
Theorem linear_interpolate_stays_in_range
  (raw_value : Z) (points : list (Z * Q)) (lo hi : Q) :
  points <> [] ->
  (forall p, In p points -> (lo <= snd p <= hi)%Q) ->
  exists path v, _linear_interpolate raw_value points = Ret (path, v)
                 /\ path <> NotPossible /\ (lo <= v <= hi)%Q.
Proof. apply Scaling.interpolate_in_range. Qed.

Lemma linear_interpolate_stays_in_range_witness :
  exists path v, _linear_interpolate 60 swr_points = Ret (path, v)
                 /\ path <> NotPossible /\ (1 <= v <= 99)%Q.
Proof.
  apply (linear_interpolate_stays_in_range 60 swr_points 1 99).
  - discriminate.
  - intros p Hp. simpl in Hp.
    repeat (destruct Hp as [<- | Hp]; [split; discriminate|]). destruct Hp.
Defined.

(** ** Properties of the methods built on the exchange *)

(** X13.  [read_swr_meter], when the exchange returns a reply: a reply that
    is not nine bytes long gives -1; a reply of nine bytes gives a value
    between 1 and 99, the ends of the meter's table, or the method raises
    (the second data byte is not packed decimal). *)
Theorem read_swr_meter_range (self : Device) (ser ser' : Serial) (r : bytes) :
  _send_command self [0x15; 0x12] [] [] ser = (Ret r, ser') ->
  (length r <> 9%nat -> read_swr_meter self ser = (Ret (-1)%Q, ser')) /\
  (length r = 9%nat ->
   (exists v, read_swr_meter self ser = (Ret v, ser') /\ (1 <= v <= 99)%Q) \/
   (exists e, read_swr_meter self ser = (Raise e, ser'))).
Proof.
  intros Hret. unfold read_swr_meter.
  rewrite (Methods.io_bind_ret _ _ ser r ser' Hret). unfold len. split.
  - intros Hlen.
    replace (Z.of_nat (length r) =? 9) with false by (symmetry; apply Z.eqb_neq; lia).
    reflexivity.
  - intros Hlen. rewrite Hlen. cbn [Z.of_nat Pos.of_succ_nat Pos.succ Z.eqb Pos.eqb].
    unfold io_bind, io_lift, io_ret.
    destruct (getitem r 6) as [b6|e6]; [|right; eauto].
    destruct (getitem r 7) as [b7|e7]; [|right; eauto].
    destruct (_bytes_to_int b6 b7) as [raw|e]; [|right; eauto].
    destruct (Scaling.interpolate_in_range raw swr_points 1 99)
      as (path & v & -> & _ & Hv).
    + discriminate.
    + intros p Hp. simpl in Hp.
      repeat (destruct Hp as [<- | Hp]; [split; discriminate|]). destruct Hp.
    + left. exists v. split; [reflexivity | exact Hv].
Qed.

Lemma read_swr_meter_range_witness :
  exists v,
    read_swr_meter (ic7300 3)
      (port [[0xfe; 0xfe; 0xe0; 0x94; 0x15; 0x12; 0x00; 0x48; 0xfd]])
    = (Ret v, {| written := [[0xfe; 0xfe; 0x94; 0xe0; 0x15; 0x12; 0xfd]];
                 incoming := [] |})
    /\ (1 <= v <= 99)%Q.
Proof.
  destruct (proj2 (read_swr_meter_range (ic7300 3)
                     (port [[0xfe; 0xfe; 0xe0; 0x94; 0x15; 0x12; 0x00; 0x48; 0xfd]])
                     {| written := [[0xfe; 0xfe; 0x94; 0xe0; 0x15; 0x12; 0xfd]];
                        incoming := [] |}
                     [0xfe; 0xfe; 0xe0; 0x94; 0x15; 0x12; 0x00; 0x48; 0xfd]
                     eq_refl) eq_refl) as [H | [e H]].
  - exact H.
  - discriminate H.
Defined.

(** X14.  [read_af_volume], when the exchange returns a reply: a reply that
    is not nine bytes long gives -1; for a reply of nine bytes whose byte 7
    is packed decimal the result is raw * 100 / 255, where raw is byte 6
    times 100 plus the two digits of byte 7, and it lies between 0 and 100
    whenever raw is at most 255. *)
Theorem read_af_volume_percentage
  (self : Device) (ser ser' : Serial) (r : bytes) :
  _send_command self [0x14; 0x01] [] [] ser = (Ret r, ser') ->
  (length r <> 9%nat -> read_af_volume self ser = (Ret (-1)%Q, ser')) /\
  (length r = 9%nat ->
   forall hi lo, nth_error r 6 = Some hi -> nth_error r 7 = Some lo -> is_bcd lo ->
   exists v,
     read_af_volume self ser = (Ret v, ser') /\
     (v == inject_Z (hi * 100 + (10 * (lo / 16) + lo mod 16)) * 100 / 255)%Q /\
     (0 <= hi * 100 + (10 * (lo / 16) + lo mod 16) <= 255 -> (0 <= v <= 100)%Q)).
Proof.
  intros Hret. unfold read_af_volume.
  rewrite (Methods.io_bind_ret _ _ ser r ser' Hret). unfold len. split.
  - intros Hlen.
    replace (Z.of_nat (length r) =? 9) with false by (symmetry; apply Z.eqb_neq; lia).
    reflexivity.
  - intros Hlen hi lo H6 H7 Hlo. rewrite Hlen.
    cbn [Z.of_nat Pos.of_succ_nat Pos.succ Z.eqb Pos.eqb].
    unfold io_bind, io_lift, io_ret, getitem. rewrite H6, H7.
    destruct (CodecMore.is_bcd_split lo Hlo) as (Hhi & Hl & _).
    destruct Hlo as (Hrange & _).
    rewrite (Codec.bytes_to_int_eq hi lo Hrange). unfold packed_decimal.
    replace (lo / 16 <? 10) with true by (symmetry; apply Z.ltb_lt; lia).
    replace (lo mod 16 <? 10) with true by (symmetry; apply Z.ltb_lt; lia).
    cbn [andb bind].
    set (raw := hi * 100 + (10 * (lo / 16) + lo mod 16)).
    exists (_convert_to_range (inject_Z raw) 0 255 0 100).
    split; [reflexivity|].
    rewrite Scaling.convert_nondegenerate by reflexivity. split.
    + field.
    + intros Hraw.
      assert (H0 : (0 <= inject_Z raw)%Q)
        by (change 0%Q with (inject_Z 0); rewrite <- Zle_Qle; lia).
      assert (H1 : (inject_Z raw <= 255)%Q)
        by (change 255%Q with (inject_Z 255); rewrite <- Zle_Qle; lia).
      apply Scaling.scaled_between; lra.
Qed.

Lemma read_af_volume_percentage_witness :
  exists v,
    read_af_volume (ic7300 3) (port [level_reply])
    = (Ret v, {| written := [[0xfe; 0xfe; 0x94; 0xe0; 0x14; 0x01; 0xfd]];
                 incoming := [] |})
    /\ (v == 12800 / 255)%Q /\ (0 <= v <= 100)%Q.
Proof.
  destruct (proj2 (read_af_volume_percentage (ic7300 3) (port [level_reply])
                     {| written := [[0xfe; 0xfe; 0x94; 0xe0; 0x14; 0x01; 0xfd]];
                        incoming := [] |}
                     level_reply eq_refl) eq_refl 0x01 0x28 eq_refl eq_refl
              ltac:(repeat split; vm_compute; congruence))
    as (v & Hv & Heq & Hrange).
  exists v. split; [exact Hv|]. split; [exact Heq | apply Hrange; vm_compute].
  split; congruence.
Defined.

(** X15.  [send_operating_frequency] raises [ValueError] and leaves the port
    untouched for a frequency outside 10,000 .. 74,000,000.  Inside, it
    writes exactly one frame, of opcode 0x05 with the five packed-decimal
    bytes of the frequency, and it never returns False: its result is True
    or an exception of the exchange. *)
Theorem send_operating_frequency_sends_packed_decimal
  (self : Device) (frequency_hz : Z) (ser : Serial) :
  (frequency_hz < 10000 \/ 74000000 < frequency_hz ->
   send_operating_frequency self frequency_hz ser = (Raise ValueError, ser)) /\
  (10000 <= frequency_hz <= 74000000 ->
   written (snd (send_operating_frequency self frequency_hz ser))
   = written ser ++ [frame self [0x05] (bcd5 frequency_hz)] /\
   fst (send_operating_frequency self frequency_hz ser) <> Ret false).
Proof.
  split; [apply Codec.send_operating_frequency_guard|].
  intros Hf. unfold send_operating_frequency.
  replace ((10000 <=? frequency_hz) && (frequency_hz <=? 74000000)) with true
    by (symmetry; apply andb_true_iff; split; apply Z.leb_le; lia).
  cbn [negb]. rewrite (Codec.encode_nonneg frequency_hz) by lia.
  assert (Hcmd : valid_command [0x05]) by (unfold valid_command; simpl; lia).
  destruct (EngineMore.port_discipline self [0x05] (bcd5 frequency_hz) [] ser Hcmd)
    as [Hw _].
  destruct (_send_command self [0x05] (bcd5 frequency_hz) [] ser)
    as [[reply|e] ser1] eqn:E; cbn [fst snd] in *.
  - split; [exact Hw|].
    pose proof (Engine.returned_reply_accepted self [0x05] (bcd5 frequency_hz) []
                  ser Hcmd reply ser1 E) as Hacc.
    apply EngineMore.accepted_length in Hacc. unfold Py.len.
    replace (Z.of_nat (length reply) >? 0) with true; [discriminate|].
    symmetry. rewrite Z.gtb_ltb. apply Z.ltb_lt. lia.
  - split; [exact Hw | discriminate].
Qed.

Lemma send_operating_frequency_sends_packed_decimal_witness :
  send_operating_frequency (ic7300 3) 9999 (port []) = (Raise ValueError, port []) /\
  written (snd (send_operating_frequency (ic7300 3) 14074000
                  (port [[0xfe; 0xfe; 0xe0; 0x94; 0xfb; 0xfd]])))
  = [[0xfe; 0xfe; 0x94; 0xe0; 0x05; 0x00; 0x40; 0x07; 0x14; 0x00; 0xfd]].
Proof.
  split.
  - apply (proj1 (send_operating_frequency_sends_packed_decimal (ic7300 3) 9999
                    (port []))). lia.
  - apply (proj2 (send_operating_frequency_sends_packed_decimal (ic7300 3) 14074000
                    (port [[0xfe; 0xfe; 0xe0; 0x94; 0xfb; 0xfd]]))). lia.
Defined.

(** X16.  [read_operating_frequency] never raises: when the exchange raises,
    timeout and rejection included, it returns -1.  When the exchange returns
    a reply that carries, after its five header bytes, the packed-decimal
    bytes of a frequency below 10^10, it returns that frequency. *)
Theorem read_operating_frequency_decodes (self : Device) (ser : Serial) :
  (exists v, fst (read_operating_frequency self ser) = Ret v) /\
  (forall e ser', _send_command self [0x03] [] [] ser = (Raise e, ser') ->
     read_operating_frequency self ser = (Ret (-1), ser')) /\
  (forall r ser' header f rest,
     _send_command self [0x03] [] [] ser = (Ret r, ser') ->
     r = header ++ bcd5 f ++ rest -> length header = 5%nat -> 0 <= f < 10 ^ 10 ->
     read_operating_frequency self ser = (Ret f, ser')).
Proof.
  unfold read_operating_frequency, io_try, io_bind, io_lift.
  split; [|split].
  - destruct (_send_command self [0x03] [] [] ser) as [[r|e] ser1];
      [|eexists; reflexivity].
    destruct (_decode_frequency _); eexists; reflexivity.
  - intros e ser' ->. reflexivity.
  - intros r ser' header f rest -> -> Hh Hf.
    replace 5 with (Py.len header) by (unfold Py.len; lia).
    replace 10 with (Py.len header + Py.len (bcd5 f))
      by (unfold Py.len; rewrite Hh; reflexivity).
    rewrite Methods.slice_middle, (Codec.decode_bcd5 f Hf). reflexivity.
Qed.

Lemma read_operating_frequency_decodes_witness :
  read_operating_frequency (ic7300 3) (port [frequency_frame 14074000])
  = (Ret 14074000, {| written := [read_frequency_frame]; incoming := [] |}).
Proof.
  apply (proj2 (proj2 (read_operating_frequency_decodes (ic7300 3)
                         (port [frequency_frame 14074000])))
           (frequency_frame 14074000)
           {| written := [read_frequency_frame]; incoming := [] |}
           [0xfe; 0xfe; 0xe0; 0x94; 0x03] 14074000 [0xfd]).
  - reflexivity.
  - reflexivity.
  - reflexivity.
  - lia.
Defined.

(** X17.  [set_scope_fixed_edge_frequencies] raises [ValueError] on every
    input and never touches the port.  Its membership test is against the
    list [[1 - 3]], so the only edge number that passes is -2, and
    [bytes([-2])] is refused after the frequencies are encoded. *)
Theorem set_scope_fixed_edge_frequencies_always_raises
  (self : Device) (edge_number lower_frequency higher_frequency : Z) (ser : Serial) :
  set_scope_fixed_edge_frequencies self edge_number lower_frequency higher_frequency ser
  = (Raise ValueError, ser).
Proof.
  unfold set_scope_fixed_edge_frequencies.
  destruct (existsb (Z.eqb edge_number) [1 - 3]) eqn:Eedge; [|reflexivity].
  cbn [negb]. cbn [existsb] in Eedge. rewrite orb_false_r in Eedge.
  apply Z.eqb_eq in Eedge. subst edge_number.
  destruct (negb ((10000 <=? lower_frequency) && (lower_frequency <=? 74000000))
            || negb ((10000 <=? higher_frequency) && (higher_frequency <=? 74000000)))
    eqn:Efreq; [reflexivity|].
  apply orb_false_iff in Efreq. destruct Efreq as [El Eh].
  apply negb_false_iff, andb_true_iff in El, Eh.
  destruct El as [El1 El2], Eh as [Eh1 Eh2].
  apply Z.leb_le in El1, El2, Eh1, Eh2.
  unfold io_bind, io_lift.
  rewrite (Codec.encode_nonneg lower_frequency) by lia.
  rewrite (Codec.encode_nonneg higher_frequency) by lia.
  reflexivity.
Qed.

Module Levels.

(** Levels in steps of 0.5: the remainder test accepts them, and twenty
    times the level is ten times the number of steps. *)
Lemma half_steps level k : (level == inject_Z k / 2)%Q ->
  Qeq_bool (Qmod level 0.5) 0 = true /\ Qint (level * 20) = 10 * k.
Proof.
  intros E. split.
  - apply Qeq_bool_iff. unfold Qmod.
    assert (H : (level / 0.5 == inject_Z k)%Q) by (rewrite E; field).
    rewrite H, Qfloor_Z, E. field.
  - assert (H : (level * 20 == inject_Z (10 * k))%Q).
    { rewrite E, inject_Z_mult. field. }
    unfold Qint. destruct (Qle_bool 0 (level * 20)).
    + rewrite (Qfloor_comp _ _ H). apply Qfloor_Z.
    + rewrite (Qceiling_comp _ _ H). apply Qceiling_Z.
Qed.

Lemma half_steps_inv level : Qeq_bool (Qmod level 0.5) 0 = true ->
  exists k, (level == inject_Z k / 2)%Q.
Proof.
  intros H. apply Qeq_bool_iff in H. unfold Qmod in H.
  exists (Qfloor (level / 0.5)).
  set (n := inject_Z (Qfloor (level / 0.5))) in *.
  assert (E : (level == 0.5 * n)%Q) by lra. rewrite E. field.
Qed.

End Levels.

(** X18.  [set_scope_reference_level] never sends a negative level: for
    every level below zero it ends in [ValueError] or, when the level passes
    both checks, in [OverflowError] from [to_bytes], with the port untouched.
    A level of k half-decibels, k from 0 to 40, sends one frame of opcode
    0x27 0x19 with the data 0x00 and the two bytes of 10 k, low byte
    first. *)
Theorem set_scope_reference_level_sends (self : Device) (level : Q) (ser : Serial) :
  ((level < 0)%Q ->
   snd (set_scope_reference_level self level ser) = ser /\
   (fst (set_scope_reference_level self level ser) = Fail (Core ValueError) \/
    fst (set_scope_reference_level self level ser) = Fail OverflowError)) /\
  (forall k, 0 <= k <= 40 -> (level == inject_Z k / 2)%Q ->
   set_scope_reference_level self level ser
   = send_and_drop self [0x27; 0x19] [0x00; (10 * k) mod 256; (10 * k) / 256] ser).
Proof.
  unfold set_scope_reference_level. split.
  - intros Hneg.
    destruct (negb (Qle_bool (-20) level && Qle_bool level 20)); [cbn; auto|].
    destruct (Qeq_bool (Qmod level 0.5) 0) eqn:Emod; cbn [negb]; [|cbn; auto].
    destruct (Levels.half_steps_inv level Emod) as [k Hk].
    destruct (Levels.half_steps level k Hk) as [_ ->].
    assert (Hk0 : k < 0).
    { rewrite Zlt_Qlt. change (inject_Z 0) with 0%Q.
      assert (E2 : (inject_Z k == level * 2)%Q) by (rewrite Hk; field). lra. }
    rewrite (Methods.to_bytes_overflow (10 * k) 2 true) by lia. cbn. auto.
  - intros k Hk E.
    assert (H0 : (0 <= inject_Z k)%Q)
      by (change 0%Q with (inject_Z 0); rewrite <- Zle_Qle; lia).
    assert (H1 : (inject_Z k <= 40)%Q)
      by (change 40%Q with (inject_Z 40); rewrite <- Zle_Qle; lia).
    assert (E2 : (inject_Z k == level * 2)%Q) by (rewrite E; field).
    replace (Qle_bool (-20) level && Qle_bool level 20) with true
      by (symmetry; apply andb_true_iff; split; apply Qle_bool_iff; lra).
    cbn [negb]. destruct (Levels.half_steps level k E) as [-> ->]. cbn [negb].
    rewrite (Methods.to_bytes_2 (10 * k) true) by lia.
    replace (Qle_bool 0 level) with true by (symmetry; apply Qle_bool_iff; lra).
    reflexivity.
Qed.

Lemma set_scope_reference_level_sends_witness :
  fst (set_scope_reference_level (ic7300 3) (-5) (port [])) = Fail OverflowError /\
  set_scope_reference_level (ic7300 3) 20 (port [])
  = send_and_drop (ic7300 3) [0x27; 0x19] [0x00; 0x90; 0x01] (port []).
Proof.
  split.
  - destruct (proj1 (set_scope_reference_level_sends (ic7300 3) (-5) (port []))
                ltac:(reflexivity)) as [_ [H | H]].
    + discriminate H.
    + exact H.
  - apply (proj2 (set_scope_reference_level_sends (ic7300 3) 20 (port [])) 40).
    + lia.
    + reflexivity.
Defined.

(** X19.  [set_nb_width] raises [ValueError] and leaves the port untouched
    for a width outside 1 .. 100.  Inside, [to_bytes] cannot overflow: the
    method writes exactly one frame, with the data bytes width - 1 and 0,
    and never returns False. *)
Theorem set_nb_width_sends (self : Device) (width : Z) (ser : Serial) :
  (width < 1 \/ 100 < width ->
   set_nb_width self width ser = (Fail (Core ValueError), ser)) /\
  (1 <= width <= 100 ->
   written (snd (set_nb_width self width ser))
   = written ser ++ [frame self [0x1a; 0x05; 0x01; 0x90] [width - 1; 0]] /\
   fst (set_nb_width self width ser) <> Done false /\
   fst (set_nb_width self width ser) <> Fail OverflowError).
Proof.
  unfold set_nb_width. split.
  - intros H. replace ((1 <=? width) && (width <=? 100)) with false; [reflexivity|].
    symmetry. apply andb_false_iff. destruct H; [left | right]; apply Z.leb_gt; lia.
  - intros H.
    replace ((1 <=? width) && (width <=? 100)) with true
      by (symmetry; apply andb_true_iff; split; apply Z.leb_le; lia).
    cbn [negb]. unfold _encode_2_bytes_value.
    rewrite (Methods.to_bytes_2 (width - 1) true) by lia.
    replace ((width - 1) mod 256) with (width - 1)
      by (Z.to_euclidean_division_equations; lia).
    replace ((width - 1) / 256) with 0 by (Z.to_euclidean_division_equations; lia).
    assert (Hcmd : valid_command [0x1a; 0x05; 0x01; 0x90])
      by (unfold valid_command; simpl; lia).
    destruct (EngineMore.port_discipline self [0x1a; 0x05; 0x01; 0x90] [width - 1; 0]
                [] ser Hcmd) as [Hw _].
    destruct (_send_command self [26; 5; 1; 144] [width - 1; 0] [] ser)
      as [[reply|e] ser1] eqn:E; cbn [fst snd] in *.
    + split; [exact Hw|]. split; [|discriminate].
      pose proof (Engine.returned_reply_accepted self _ _ [] ser Hcmd reply ser1 E)
        as Hacc.
      apply EngineMore.accepted_length in Hacc. unfold Py.len.
      replace (Z.of_nat (length reply) >? 0) with true; [discriminate|].
      symmetry. rewrite Z.gtb_ltb. apply Z.ltb_lt. lia.
    + split; [exact Hw|]. split; discriminate.
Qed.

Lemma set_nb_width_sends_witness :
  set_nb_width (ic7300 3) 101 (port []) = (Fail (Core ValueError), port []) /\
  written (snd (set_nb_width (ic7300 3) 100 (port [])))
  = [[0xfe; 0xfe; 0x94; 0xe0; 0x1a; 0x05; 0x01; 0x90; 99; 0; 0xfd]].
Proof.
  split.
  - apply (proj1 (set_nb_width_sends (ic7300 3) 101 (port []))). lia.
  - apply (proj2 (set_nb_width_sends (ic7300 3) 100 (port []))). lia.
Defined.

(** X20.  [set_memory_mode] raises [ValueError] and leaves the port
    untouched for a channel outside 1 .. 101.  Inside, it writes exactly one
    frame of opcode 0x08 whose two data bytes read back, through
    [_bytes_to_int], as the channel. *)
Theorem set_memory_mode_sends_channel
  (self : Device) (memory_channel : Z) (ser : Serial) :
  (memory_channel < 1 \/ 101 < memory_channel ->
   set_memory_mode self memory_channel ser = (Raise ValueError, ser)) /\
  (1 <= memory_channel <= 101 ->
   exists d0 d1,
     _bytes_to_int d0 d1 = Ret memory_channel /\
     written (snd (set_memory_mode self memory_channel ser))
     = written ser ++ [frame self [0x08] [d0; d1]]).
Proof.
  unfold set_memory_mode. split.
  - intros H.
    replace ((1 <=? memory_channel) && (memory_channel <=? 101)) with false;
      [reflexivity|].
    symmetry. apply andb_false_iff. destruct H; [left | right]; apply Z.leb_gt; lia.
  - intros H.
    replace ((1 <=? memory_channel) && (memory_channel <=? 101)) with true
      by (symmetry; apply andb_true_iff; split; apply Z.leb_le; lia).
    cbn [negb]. unfold io_bind, io_lift.
    rewrite (Methods.memory_channel_data_spec memory_channel H).
    set (d0 := memory_channel / 100).
    set (d1 := 16 * (memory_channel / 10 mod 10) + memory_channel mod 10).
    exists d0, d1. split.
    + assert (Hd1 : 0 <= d1 < 256)
        by (unfold d1; Z.to_euclidean_division_equations; lia).
      rewrite (Codec.bytes_to_int_eq d0 d1 Hd1). unfold packed_decimal.
      assert (Hhi : d1 / 16 = memory_channel / 10 mod 10)
        by (unfold d1; Z.to_euclidean_division_equations; lia).
      assert (Hlo : d1 mod 16 = memory_channel mod 10)
        by (unfold d1; Z.to_euclidean_division_equations; lia).
      rewrite Hhi, Hlo.
      replace (memory_channel / 10 mod 10 <? 10) with true
        by (symmetry; apply Z.ltb_lt; Z.to_euclidean_division_equations; lia).
      replace (memory_channel mod 10 <? 10) with true
        by (symmetry; apply Z.ltb_lt; Z.to_euclidean_division_equations; lia).
      cbn [andb bind]. f_equal. unfold d0.
      Z.to_euclidean_division_equations; lia.
    + assert (Hcmd : valid_command [0x08]) by (unfold valid_command; simpl; lia).
      destruct (EngineMore.port_discipline self [0x08] [d0; d1] [] ser Hcmd)
        as [Hw _].
      destruct (_send_command self [8] [d0; d1] [] ser) as [[reply|e] ser1];
        cbn [fst snd] in *; exact Hw.
Qed.

Lemma set_memory_mode_sends_channel_witness :
  set_memory_mode (ic7300 3) 102 (port []) = (Raise ValueError, port []) /\
  exists d0 d1,
    _bytes_to_int d0 d1 = Ret 100 /\
    written (snd (set_memory_mode (ic7300 3) 100 (port [])))
    = written (port []) ++ [frame (ic7300 3) [0x08] [d0; d1]].
Proof.
  split.
  - apply (proj1 (set_memory_mode_sends_channel (ic7300 3) 102 (port []))). lia.
  - apply (proj2 (set_memory_mode_sends_channel (ic7300 3) 100 (port []))). lia.
Defined.

(** X21.  [set_memory_name] raises [ValueError] and leaves the port
    untouched for a channel outside 1 .. 99, a name of more than ten
    characters or a character above code 255.  Otherwise its padding loop
    ends and it sends one frame of opcode 0x1A 0x00 whose data is always 23
    bytes: the channel as two bytes, eleven zero bytes, and the name filled up
    with spaces to ten bytes. *)
Theorem set_memory_name_pads
  (self : Device) (memory_channel : Z) (name : text) (ser : Serial) :
  (memory_channel < 1 \/ 99 < memory_channel \/ (10 < length name)%nat
   \/ ~ well_formed name ->
   set_memory_name self memory_channel name ser = (Fail (Core ValueError), ser)) /\
  (1 <= memory_channel <= 99 -> (length name <= 10)%nat -> well_formed name ->
   let data := [0x00; memory_channel; 0x00] ++ repeat 0x00 10 ++ name
               ++ repeat 0x20 (10 - length name) in
   length data = 23%nat /\
   set_memory_name self memory_channel name ser
   = send_and_drop self [0x1a; 0x00] data ser).
Proof.
  split.
  - intros H. unfold set_memory_name.
    destruct (negb ((1 <=? memory_channel) && (memory_channel <=? 99))) eqn:Ech;
      [reflexivity|].
    apply negb_false_iff, andb_true_iff in Ech. destruct Ech as [E1 E2].
    apply Z.leb_le in E1, E2.
    destruct (Py.len name >? 10) eqn:Elen; [reflexivity|].
    rewrite Z.gtb_ltb in Elen. apply Z.ltb_ge in Elen. unfold Py.len in Elen.
    destruct H as [H | [H | [H | H]]]; try lia.
    rewrite (Methods.to_bytes_2 memory_channel false) by lia.
    now rewrite (Methods.chars_beyond_byte name H).
  - intros Hch Hlen Hwf data. unfold set_memory_name.
    replace ((1 <=? memory_channel) && (memory_channel <=? 99)) with true
      by (symmetry; apply andb_true_iff; split; apply Z.leb_le; lia).
    cbn [negb].
    replace (Py.len name >? 10) with false
      by (symmetry; unfold Py.len; rewrite Z.gtb_ltb; apply Z.ltb_ge; lia).
    rewrite (Methods.to_bytes_2 memory_channel false) by lia.
    rewrite (Methods.chars_as_bytes name Hwf), Methods.concat_singletons.
    rewrite (Methods.pad_name_spec 10 name) by lia.
    replace (memory_channel / 256) with 0 by (Z.to_euclidean_division_equations; lia).
    replace (memory_channel mod 256) with memory_channel
      by (Z.to_euclidean_division_equations; lia).
    split; [|reflexivity].
    unfold data. rewrite !length_app, !repeat_length. cbn [length]. lia.
Qed.

Lemma set_memory_name_pads_witness :
  set_memory_name (ic7300 3) 7 [0x44; 0x58; 0x100] (port [])
  = (Fail (Core ValueError), port []) /\
  set_memory_name (ic7300 3) 7 [0x44; 0x58] (port [])
  = send_and_drop (ic7300 3) [0x1a; 0x00]
      ([0x00; 7; 0x00] ++ repeat 0x00 10 ++ [0x44; 0x58] ++ repeat 0x20 8) (port []).
Proof.
  split.
  - apply (proj1 (set_memory_name_pads (ic7300 3) 7 [0x44; 0x58; 0x100] (port []))).
    right; right; right. intros H.
    inversion H as [|? ? _ H1]; subst. inversion H1 as [|? ? _ H2]; subst.
    inversion H2 as [|? ? H3 _]; subst. lia.
  - apply (proj2 (set_memory_name_pads (ic7300 3) 7 [0x44; 0x58] (port []))).
    + lia.
    + simpl. lia.
    + repeat constructor; lia.
Defined.

(** X22.  [read_transceiver_id], when the exchange returns a reply, returns
    the one byte at the reply's second-to-last position; a returned reply
    always has one, so the fallback [b'\x00'] of the method is never what it
    returns for lack of a reply. *)
Theorem read_transceiver_id_returns_status_byte
  (self : Device) (ser ser' : Serial) (r : bytes) :
  _send_command self [0x19; 0x00] [] [] ser = (Ret r, ser') ->
  exists code, status_byte r = Some code /\
               read_transceiver_id self ser = (Ret [code], ser').
Proof.
  intros Hret.
  assert (Hcmd : valid_command [0x19; 0x00]) by (unfold valid_command; simpl; lia).
  pose proof (Engine.returned_reply_accepted self _ _ [] ser Hcmd r ser' Hret) as Hacc.
  pose proof (EngineMore.accepted_length _ _ _ Hacc) as Hlen.
  destruct Hacc as (_ & _ & code & Hcode & _).
  exists code. split; [exact Hcode|].
  unfold read_transceiver_id. rewrite (Methods.io_bind_ret _ _ ser r ser' Hret).
  unfold Py.len.
  replace (Z.of_nat (length r) >? 0) with true
    by (symmetry; rewrite Z.gtb_ltb; apply Z.ltb_lt; lia).
  rewrite (Methods.slice_penultimate r code) by (lia || assumption). reflexivity.
Qed.

Lemma read_transceiver_id_returns_status_byte_witness :
  exists code,
    status_byte [0xfe; 0xfe; 0xe0; 0x94; 0x19; 0x00; 0x94; 0xfd] = Some code /\
    read_transceiver_id (ic7300 3)
      (port [[0xfe; 0xfe; 0xe0; 0x94; 0x19; 0x00; 0x94; 0xfd]])
    = (Ret [code], {| written := [[0xfe; 0xfe; 0x94; 0xe0; 0x19; 0x00; 0xfd]];
                      incoming := [] |}).
Proof.
  apply (read_transceiver_id_returns_status_byte (ic7300 3)
           (port [[0xfe; 0xfe; 0xe0; 0x94; 0x19; 0x00; 0x94; 0xfd]])).
  reflexivity.
Defined.

(** X23.  [read_squelch_status], when the exchange returns a reply: a reply
    of fewer than seven bytes (the six-byte acknowledge, for one) makes the
    method raise [IndexError]; otherwise the result is True exactly when byte
    6 is zero. *)
Theorem read_squelch_status_reads_byte_6
  (self : Device) (ser ser' : Serial) (r : bytes) :
  _send_command self [0x15; 0x01] [] [] ser = (Ret r, ser') ->
  ((length r < 7)%nat -> read_squelch_status self ser = (Raise IndexError, ser')) /\
  (forall b6, nth_error r 6 = Some b6 ->
     read_squelch_status self ser = (Ret (b6 =? 0), ser')).
Proof.
  intros Hret. unfold read_squelch_status.
  rewrite (Methods.io_bind_ret _ _ ser r ser' Hret).
  unfold io_bind, io_lift, io_ret, Py.getitem. split.
  - intros Hlen. replace (nth_error r 6) with (@None Z); [reflexivity|].
    symmetry. apply nth_error_None. lia.
  - intros b6 ->. now rewrite negb_involutive.
Qed.

Lemma read_squelch_status_reads_byte_6_witness :
  read_squelch_status (ic7300 3) (port [[0xfe; 0xfe; 0xe0; 0x94; 0xfb; 0xfd]])
  = (Raise IndexError, {| written := [[0xfe; 0xfe; 0x94; 0xe0; 0x15; 0x01; 0xfd]];
                          incoming := [] |}).
Proof.
  apply (proj1 (read_squelch_status_reads_byte_6 (ic7300 3)
                  (port [[0xfe; 0xfe; 0xe0; 0x94; 0xfb; 0xfd]])
                  {| written := [[0xfe; 0xfe; 0x94; 0xe0; 0x15; 0x01; 0xfd]];
                     incoming := [] |}
                  [0xfe; 0xfe; 0xe0; 0x94; 0xfb; 0xfd] eq_refl)).
  simpl. lia.
Defined.

(** X24.  The mode and filter that [set_operating_mode] puts on the wire
    are the ones [read_operating_mode] names on the way back:
    [set_operating_mode] writes one frame of opcode 0x06 with the two values
    as data, and for a reply of eight bytes that carries the same two values
    after its five header bytes [read_operating_mode] returns the two
    names. *)
Theorem operating_mode_round_trip
  (self : Device) (mode : OperatingMode) (filter : SelectedFilter) :
  (forall ser,
     written (snd (set_operating_mode self mode filter ser))
     = written ser
       ++ [frame self [0x06] [OperatingMode_value mode; SelectedFilter_value filter]])
  /\
  (forall ser ser' r header,
     _send_command self [0x04] [] [] ser = (Ret r, ser') ->
     r = header ++ [OperatingMode_value mode; SelectedFilter_value filter; 0xfd] ->
     length header = 5%nat ->
     read_operating_mode self ser
     = (Ret (OperatingMode_name mode, SelectedFilter_name filter), ser')).
Proof.
  split.
  - intros ser. unfold set_operating_mode, io_bind, io_lift.
    assert (Hb : Py.bytes_of_ints [OperatingMode_value mode; SelectedFilter_value filter]
                 = Ret [OperatingMode_value mode; SelectedFilter_value filter])
      by (destruct mode, filter; reflexivity).
    rewrite Hb.
    assert (Hcmd : valid_command [0x06]) by (unfold valid_command; simpl; lia).
    destruct (EngineMore.port_discipline self [0x06]
                [OperatingMode_value mode; SelectedFilter_value filter] [] ser Hcmd)
      as [Hw _].
    destruct (_send_command self [6] _ [] ser) as [[reply|e] ser1];
      cbn [fst snd] in *; exact Hw.
  - intros ser ser' r header Hret -> Hh. unfold read_operating_mode.
    rewrite (Methods.io_bind_ret _ _ ser _ ser' Hret).
    unfold Py.len. rewrite length_app, Hh. cbn [length Nat.add].
    cbn [Z.of_nat Pos.of_succ_nat Pos.succ Z.eqb Pos.eqb].
    assert (H5 : PyMore.slice
                   (header ++ [OperatingMode_value mode; SelectedFilter_value filter; 253])
                   5 6 = [OperatingMode_value mode]).
    { apply (Methods.slice_one _ 5). rewrite nth_error_app2 by lia.
      rewrite Hh. reflexivity. }
    assert (H6 : PyMore.slice
                   (header ++ [OperatingMode_value mode; SelectedFilter_value filter; 253])
                   6 7 = [SelectedFilter_value filter]).
    { apply (Methods.slice_one _ 6). rewrite nth_error_app2 by lia.
      rewrite Hh. reflexivity. }
    rewrite H5, H6. unfold io_bind, io_lift, io_ret.
    destruct mode, filter; reflexivity.
Qed.

Lemma operating_mode_round_trip_witness :
  read_operating_mode (ic7300 3) (port [[0xfe; 0xfe; 0xe0; 0x94; 0x04; 0x07; 0x02; 0xfd]])
  = (Ret (lit "CWR", lit "FIL2"),
     {| written := [[0xfe; 0xfe; 0x94; 0xe0; 0x04; 0xfd]]; incoming := [] |}).
Proof.
  apply (proj2 (operating_mode_round_trip (ic7300 3) CWR FIL2)
           (port [[0xfe; 0xfe; 0xe0; 0x94; 0x04; 0x07; 0x02; 0xfd]])
           {| written := [[0xfe; 0xfe; 0x94; 0xe0; 0x04; 0xfd]]; incoming := [] |}
           [0xfe; 0xfe; 0xe0; 0x94; 0x04; 0x07; 0x02; 0xfd]
           [0xfe; 0xfe; 0xe0; 0x94; 0x04]).
  - reflexivity.
  - reflexivity.
  - reflexivity.
Defined.

(** ** Further properties of the construction *)

(** X25.  The text [_bytes_to_string] prints for a single byte is an
    address [__init__] accepts, and the address stored is that byte: for all
    bytes [t] and [c], constructing from the two printed texts gives a
    [Device] with the one-byte addresses [t] and [c]. *)
Theorem init_reads_printed_address (t c attempts : Z) :
  0 <= t < 256 -> 0 <= c < 256 ->
  __init__ (PyStr (_bytes_to_string [t])) (PyStr (_bytes_to_string [c])) attempts
  = Ret {| _read_attempts := attempts;
           transceiver_address := [t];
           controller_address := [c] |}.
Proof.
  intros Ht Hc.
  assert (H : forall b, 0 <= b < 256 ->
                        parse_address (PyStr (_bytes_to_string [b])) = Ret [b]).
  { intros b Hb. unfold _bytes_to_string. cbn [map PyMore.join].
    rewrite (PyFacts.format_02X_byte b Hb).
    assert (Hhex : forall d, 0 <= d < 16 -> hex_value (digit_char d) = Some d).
    { intros d Hd. unfold hex_value. rewrite (PyFacts.digit_value_char d Hd).
      replace (d <? 16) with true by (symmetry; apply Z.ltb_lt; lia). reflexivity. }
    rewrite (Address.parse_address_two_digits _ _ (b / 16) (b mod 16)).
    - do 2 f_equal. Z.to_euclidean_division_equations; lia.
    - apply Hhex. Z.to_euclidean_division_equations; lia.
    - apply Hhex. Z.to_euclidean_division_equations; lia. }
  unfold __init__. rewrite (H t Ht), (H c Hc). reflexivity.
Qed.

Lemma init_reads_printed_address_witness :
  __init__ (PyStr (_bytes_to_string [0x94])) (PyStr (_bytes_to_string [0xe0])) 3
  = Ret (ic7300 3).
Proof. apply (init_reads_printed_address 0x94 0xe0 3); lia. Defined.

(** X26.  What the validation of [__init__] does guarantee: when a [Device]
    is built from two texts, each text starts with "0x", what follows holds,
    apart from white space, only hexadecimal digits, and the address stored
    has one byte for every two of them. *)
Theorem init_built_from_hex_digits
  (radio controller : pystr) (attempts : Z) (self : Device) :
  __init__ (PyStr radio) (PyStr controller) attempts = Ret self ->
  (startswith radio (lit "0x") = true /\
   Forall is_hex_digit (non_space (skipn 2 radio)) /\
   length (non_space (skipn 2 radio))
   = (2 * length (transceiver_address self))%nat) /\
  (startswith controller (lit "0x") = true /\
   Forall is_hex_digit (non_space (skipn 2 controller)) /\
   length (non_space (skipn 2 controller))
   = (2 * length (controller_address self))%nat).
Proof.
  intros H. apply Address.init_built in H. destruct H as (Ht & Hc & _).
  unfold parse_address in Ht, Hc.
  destruct (startswith radio (lit "0x")); [|discriminate].
  destruct (startswith controller (lit "0x")); [|discriminate].
  split; (split; [reflexivity|]); now apply Address.fromhex_accepts.
Qed.

Lemma init_built_from_hex_digits_witness :
  length (non_space (skipn 2 (lit "0x 94"))) = 2%nat /\
  length (non_space (skipn 2 (lit "0xE0"))) = 2%nat.
Proof.
  destruct (init_built_from_hex_digits (lit "0x 94") (lit "0xE0") 3 (ic7300 3) eq_refl)
    as [(_ & _ & H1) (_ & _ & H2)].
  split; [exact H1 | exact H2].
Defined.

(** ** Further properties of the meters and setters *)

(** X27.  [read_smeter], when the exchange returns a reply: a reply that is
    not nine bytes long gives -1; for a reply of nine bytes the result is
    byte 6 times 100 plus the two decimal digits of byte 7, and a byte 7 with
    a nibble above 9 makes the method raise [ValueError], which nothing in it
    catches. *)
Theorem read_smeter_reads_packed_decimal
  (self : Device) (ser ser' : Serial) (r : bytes) :
  _send_command self [0x15; 0x02] [] [] ser = (Ret r, ser') ->
  (length r <> 9%nat -> read_smeter self ser = (Ret (-1), ser')) /\
  (length r = 9%nat ->
   forall hi lo, nth_error r 6 = Some hi -> nth_error r 7 = Some lo ->
   0 <= lo < 256 ->
   (is_bcd lo ->
    read_smeter self ser = (Ret (hi * 100 + (10 * (lo / 16) + lo mod 16)), ser')) /\
   (~ is_bcd lo -> read_smeter self ser = (Raise ValueError, ser'))).
Proof.
  intros Hret. unfold read_smeter.
  rewrite (Methods.io_bind_ret _ _ ser r ser' Hret). unfold Py.len. split.
  - intros Hlen.
    replace (Z.of_nat (length r) =? 9) with false by (symmetry; apply Z.eqb_neq; lia).
    reflexivity.
  - intros Hlen hi lo H6 H7 Hrange. rewrite Hlen.
    cbn [Z.of_nat Pos.of_succ_nat Pos.succ Z.eqb Pos.eqb].
    unfold io_bind, io_lift, io_ret, Py.getitem. rewrite H6, H7.
    rewrite (Codec.bytes_to_int_eq hi lo Hrange). unfold packed_decimal. split.
    + intros Hlo. destruct (CodecMore.is_bcd_split lo Hlo) as (Hhi & Hl & _).
      replace (lo / 16 <? 10) with true by (symmetry; apply Z.ltb_lt; lia).
      replace (lo mod 16 <? 10) with true by (symmetry; apply Z.ltb_lt; lia).
      reflexivity.
    + intros Hlo.
      destruct ((lo / 16 <? 10) && (lo mod 16 <? 10)) eqn:E; [|reflexivity].
      exfalso. apply Hlo. apply andb_true_iff in E. destruct E as [E1 E2].
      apply Z.ltb_lt in E1, E2. unfold is_bcd. auto.
Qed.

Lemma read_smeter_reads_packed_decimal_witness :
  read_smeter (ic7300 3) (port [[0xfe; 0xfe; 0xe0; 0x94; 0x15; 0x02; 0x01; 0x20; 0xfd]])
  = (Ret 120, {| written := [[0xfe; 0xfe; 0x94; 0xe0; 0x15; 0x02; 0xfd]];
                 incoming := [] |}) /\
  read_smeter (ic7300 3) (port [[0xfe; 0xfe; 0xe0; 0x94; 0x15; 0x02; 0x01; 0x2a; 0xfd]])
  = (Raise ValueError, {| written := [[0xfe; 0xfe; 0x94; 0xe0; 0x15; 0x02; 0xfd]];
                          incoming := [] |}).
Proof.
  split.
  - apply (proj2 (read_smeter_reads_packed_decimal (ic7300 3)
                    (port [[0xfe; 0xfe; 0xe0; 0x94; 0x15; 0x02; 0x01; 0x20; 0xfd]])
                    {| written := [[0xfe; 0xfe; 0x94; 0xe0; 0x15; 0x02; 0xfd]];
                       incoming := [] |}
                    [0xfe; 0xfe; 0xe0; 0x94; 0x15; 0x02; 0x01; 0x20; 0xfd] eq_refl)
             eq_refl 0x01 0x20 eq_refl eq_refl ltac:(lia)).
    repeat split; vm_compute; congruence.
  - apply (proj2 (read_smeter_reads_packed_decimal (ic7300 3)
                    (port [[0xfe; 0xfe; 0xe0; 0x94; 0x15; 0x02; 0x01; 0x2a; 0xfd]])
                    {| written := [[0xfe; 0xfe; 0x94; 0xe0; 0x15; 0x02; 0xfd]];
                       incoming := [] |}
                    [0xfe; 0xfe; 0xe0; 0x94; 0x15; 0x02; 0x01; 0x2a; 0xfd] eq_refl)
             eq_refl 0x01 0x2a eq_refl eq_refl ltac:(lia)).
    intros (_ & _ & H). vm_compute in H. discriminate H.
Defined.

(** X28.  [set_nb_depth] raises [ValueError] and leaves the port untouched
    for a depth outside 1 .. 10.  Inside, it writes exactly one frame, with
    the one data byte depth - 1, and it never returns False: it returns True
    or raises. *)
Theorem set_nb_depth_sends (self : Device) (depth : Z) (ser : Serial) :
  (depth < 1 \/ 10 < depth ->
   set_nb_depth self depth ser = (Raise ValueError, ser)) /\
  (1 <= depth <= 10 ->
   written (snd (set_nb_depth self depth ser))
   = written ser ++ [frame self [0x1a; 0x05; 0x01; 0x89] [depth - 1]] /\
   fst (set_nb_depth self depth ser) <> Ret false).
Proof.
  unfold set_nb_depth. split.
  - intros H. replace ((1 <=? depth) && (depth <=? 10)) with false; [reflexivity|].
    symmetry. apply andb_false_iff. destruct H; [left | right]; apply Z.leb_gt; lia.
  - intros H.
    replace ((1 <=? depth) && (depth <=? 10)) with true
      by (symmetry; apply andb_true_iff; split; apply Z.leb_le; lia).
    cbn [negb]. unfold io_bind, io_lift, io_ret, Py.bytes_of_ints. cbn [forallb].
    replace ((0 <=? depth - 1) && (depth - 1 <? 256) && true) with true
      by (symmetry; rewrite andb_true_r; apply andb_true_iff;
          split; [apply Z.leb_le | apply Z.ltb_lt]; lia).
    assert (Hcmd : valid_command [0x1a; 0x05; 0x01; 0x89])
      by (unfold valid_command; simpl; lia).
    destruct (EngineMore.port_discipline self [0x1a; 0x05; 0x01; 0x89] [depth - 1]
                [] ser Hcmd) as [Hw _].
    destruct (_send_command self [26; 5; 1; 137] [depth - 1] [] ser)
      as [[reply|e] ser1] eqn:E; cbn [fst snd] in *.
    + split; [exact Hw|].
      pose proof (Engine.returned_reply_accepted self _ _ [] ser Hcmd reply ser1 E)
        as Hacc.
      apply EngineMore.accepted_length in Hacc. unfold Py.len.
      replace (Z.of_nat (length reply) >? 0) with true; [discriminate|].
      symmetry. rewrite Z.gtb_ltb. apply Z.ltb_lt. lia.
    + split; [exact Hw | discriminate].
Qed.

Lemma set_nb_depth_sends_witness :
  set_nb_depth (ic7300 3) 11 (port []) = (Raise ValueError, port []) /\
  written (snd (set_nb_depth (ic7300 3) 10 (port [])))
  = [[0xfe; 0xfe; 0x94; 0xe0; 0x1a; 0x05; 0x01; 0x89; 9; 0xfd]].
Proof.
  split.
  - apply (proj1 (set_nb_depth_sends (ic7300 3) 11 (port []))). lia.
  - apply (proj2 (set_nb_depth_sends (ic7300 3) 10 (port []))). lia.
Defined.

(** X29.  [send_cw_message] raises and leaves the port untouched for a
    message of more than 30 characters ([ValueError]) and for a message of at
    most 30 with a character outside ASCII ([UnicodeEncodeError]).  Otherwise
    it writes exactly one frame of opcode 0x17 whose data is the message, one
    byte a character. *)
Theorem send_cw_message_sends (self : Device) (message : text) (ser : Serial) :
  ((30 < length message)%nat ->
   send_cw_message self message ser = (Fail (Core ValueError), ser)) /\
  ((length message <= 30)%nat ->
   ~ Forall (fun c => 0 <= c < 128) message ->
   send_cw_message self message ser = (Fail UnicodeEncodeError, ser)) /\
  ((length message <= 30)%nat ->
   Forall (fun c => 0 <= c < 128) message ->
   written (snd (send_cw_message self message ser))
   = written ser ++ [frame self [0x17] message]).
Proof.
  assert (Hascii : forallb (fun c => (0 <=? c) && (c <? 128)) message = true
                   <-> Forall (fun c => 0 <= c < 128) message).
  { rewrite forallb_forall, Forall_forall. split; intros H c Hc.
    - specialize (H c Hc). apply andb_true_iff in H. destruct H as [H1 H2].
      apply Z.leb_le in H1. apply Z.ltb_lt in H2. lia.
    - specialize (H c Hc). apply andb_true_iff.
      split; [apply Z.leb_le | apply Z.ltb_lt]; lia. }
  unfold send_cw_message, Py.len. repeat split.
  - intros H.
    replace (Z.of_nat (length message) >? 30) with true; [reflexivity|].
    symmetry. rewrite Z.gtb_ltb. apply Z.ltb_lt. lia.
  - intros Hlen H.
    replace (Z.of_nat (length message) >? 30) with false
      by (symmetry; rewrite Z.gtb_ltb; apply Z.ltb_ge; lia).
    unfold encode_ascii.
    destruct (forallb _ message) eqn:E; [|reflexivity].
    exfalso. apply H, Hascii. reflexivity.
  - intros Hlen H.
    replace (Z.of_nat (length message) >? 30) with false
      by (symmetry; rewrite Z.gtb_ltb; apply Z.ltb_ge; lia).
    unfold encode_ascii. rewrite (proj2 Hascii H). unfold send_and_drop.
    assert (Hcmd : valid_command [0x17]) by (unfold valid_command; simpl; lia).
    destruct (EngineMore.port_discipline self [0x17] message [] ser Hcmd) as [Hw _].
    destruct (_send_command self [23] message [] ser) as [[reply|e] ser1];
      cbn [fst snd] in *; exact Hw.
Qed.

Lemma send_cw_message_sends_witness :
  send_cw_message (ic7300 3) [0x43; 0xe9] (port [])
  = (Fail UnicodeEncodeError, port []) /\
  written (snd (send_cw_message (ic7300 3) [0x43; 0x51] (port [])))
  = [[0xfe; 0xfe; 0x94; 0xe0; 0x17; 0x43; 0x51; 0xfd]].
Proof.
  split.
  - apply (proj1 (proj2 (send_cw_message_sends (ic7300 3) [0x43; 0xe9] (port [])))).
    + simpl. lia.
    + intros H. inversion H as [|? ? _ H1]; subst.
      inversion H1 as [|? ? H2 _]; subst. lia.
  - apply (proj2 (proj2 (send_cw_message_sends (ic7300 3) [0x43; 0x51] (port [])))).
    + simpl. lia.
    + repeat constructor; lia.
Defined.
